(** * Verification of the inference-server dataplane helpers

  A shallow embedding of the parts of the AMD inference server that the
  specification talks about: the [Batch] container, the Echo worker, the
  [echo] and [echo_multi] models, the client-side helpers
  [inferAsyncOrdered] / [inferAsyncOrderedBatched], the HTTP client's
  request construction, [parseModel] of the model repository, the
  [Buffer::write] template and [VartTensorBuffer::data].

  Conventions.
  - Machine integers are [Z] with the wrap-around written out
    ([wrap32] for [uint32_t]/[unsigned int], [wrap64] for [size_t],
    [wrap_int] for [int]).
  - A byte is a [Z] in [0, 256); memory regions are [list byte].
    [memcpy] of a [uint32_t] is little-endian (the hosts the server
    targets are x86-64).
  - Undefined behaviour and uncaught exceptions are explicit results. *)

From Stdlib Require Import ZArith Lia.
From stdpp Require Import base numbers strings pretty option list.

Local Open Scope Z_scope.

(* ===================================================================== *)
(** ** Machine integers and bytes                                         *)
(* ===================================================================== *)

Module Machine.

Definition byte := Z.

(** [uint32_t] and [unsigned int] arithmetic is modulo 2^32. *)
Definition wrap32 (z : Z) : Z := z mod 2 ^ 32.

(** [size_t] arithmetic is modulo 2^64. *)
Definition wrap64 (z : Z) : Z := z mod 2 ^ 64.

(** [int] is 32-bit two's complement.  Signed overflow has no defined
    behaviour in C++; the model gives it the wrapped value the hardware
    produces. *)
Definition wrap_int (z : Z) : Z := (z + 2 ^ 31) mod 2 ^ 32 - 2 ^ 31.

Definition INT_MAX : Z := 2 ^ 31 - 1.

(** [memcpy(dst, &value, sizeof(uint32_t))]: the four bytes of [value],
    least significant first. *)
Definition encode_u32 (value : Z) : list byte :=
  [ value mod 256
  ; (value / 2 ^ 8) mod 256
  ; (value / 2 ^ 16) mod 256
  ; (value / 2 ^ 24) mod 256 ].

(** [*static_cast<uint32_t*>(ptr)]: reads the four bytes at [ptr].
    Reading from a region shorter than four bytes is undefined. *)
Definition read_u32 (region : list byte) : option Z :=
  match region with
  | b0 :: b1 :: b2 :: b3 :: _ =>
      Some (b0 + 2 ^ 8 * b1 + 2 ^ 16 * b2 + 2 ^ 24 * b3)
  | _ => None
  end.

(** [static_cast<uint32_t*>(ptr)[k]]: the k-th 32-bit word of a region. *)
Definition read_u32_at (region : list byte) (k : nat) : option Z :=
  read_u32 (drop (4 * k) region).

(** [memcpy(dst, src, |src|)] into a region at byte position [pos];
    writing past the end of the region is undefined. *)
Definition write_bytes (region : list byte) (pos : nat) (src : list byte)
  : option (list byte) :=
  if decide (pos + length src <= length region)%nat
  then Some (take pos region ++ src ++ drop (pos + length src) region)
  else None.

(** A region holding the given 32-bit words back to back. *)
Definition words (ws : list Z) : list byte := ws ≫= encode_u32.

End Machine.

(* ===================================================================== *)
(** ** Requests, responses and build options                              *)
(* ===================================================================== *)

Module Core.
Import Machine.

(** [amdinfer::DataType] (the element types the front ends switch over). *)
Module DataType.
Inductive t :=
| Bool | Uint8 | Uint16 | Uint32 | Uint64
| Int8 | Int16 | Int32 | Int64
| Fp16 | Fp32 | Fp64 | String.

#[global] Instance eq_dec : EqDecision t.
Proof. solve_decision. Defined.
End DataType.

(** [InferenceRequestInput] (also [Tensor] with data): name, shape,
    datatype and the region its data pointer refers to. *)
Record InferenceRequestInput := mkInput {
  in_name : string;
  in_shape : list Z;
  in_datatype : DataType.t;
  in_data : list byte;
}.

(** [InferenceRequestOutput]: a requested output; only its name is
    consulted by the workers modelled here. *)
Record InferenceRequestOutput := mkRequestedOutput {
  ro_name : string;
}.

(** [InferenceResponseOutput]. *)
Record InferenceResponseOutput := mkOutput {
  out_name : string;
  out_shape : list Z;
  out_datatype : DataType.t;
  out_data : list byte;
}.

(** [InferenceRequest].  The callback is identified by a handle; running
    it is recorded as an event (see [Echo.Event]). *)
Record InferenceRequest := mkRequest {
  req_id : string;
  req_inputs : list InferenceRequestInput;
  req_outputs : list InferenceRequestOutput;
  req_callback : nat;
}.

Record InferenceResponse := mkResponse {
  resp_id : string;
  resp_model : string;
  resp_outputs : list InferenceResponseOutput;
}.

(** The compile-time switches of [build_options.hpp] that guard code in
    the modelled functions. *)
Record BuildOptions := mkOptions {
  AMDINFER_ENABLE_TRACING : bool;
  AMDINFER_ENABLE_METRICS : bool;
}.

End Core.

(* ===================================================================== *)
(** ** [Batch] (batching/batch.hpp, batching/batch.cpp)                   *)
(* ===================================================================== *)

Module Batch.
Import Core.

(** [BufferPtr] is a [unique_ptr<Buffer>]; a buffer is identified by a
    handle.  [TracePtr] likewise; a time point is a tick count. *)
Definition BufferPtr := nat.
Definition TracePtr := nat.
Definition time_point := Z.

Record t := mk {
  requests_ : list InferenceRequest;
  input_buffers_ : list BufferPtr;
  output_buffers_ : list BufferPtr;
  traces_ : list TracePtr;
  start_times_ : list time_point;
}.

(** A default-constructed [Batch]. *)
Definition empty_batch : t := mk [] [] [] [] [].

Definition addRequest (request : InferenceRequest) (b : t) : t :=
  mk (requests_ b ++ [request]) (input_buffers_ b) (output_buffers_ b)
     (traces_ b) (start_times_ b).

Definition getRawInputBuffers (b : t) : list BufferPtr := input_buffers_ b.
Definition getRawOutputBuffers (b : t) : list BufferPtr := output_buffers_ b.

(** [return std::move(input_buffers_)]: the vector is moved out, which
    leaves the member empty. *)
Definition getInputBuffers (b : t) : list BufferPtr * t :=
  (input_buffers_ b,
   mk (requests_ b) [] (output_buffers_ b) (traces_ b) (start_times_ b)).

Definition getOutputBuffers (b : t) : list BufferPtr * t :=
  (output_buffers_ b,
   mk (requests_ b) (input_buffers_ b) [] (traces_ b) (start_times_ b)).

Definition getRequests (b : t) : list InferenceRequest := requests_ b.

(** [requests_.at(index)]: throws [std::out_of_range] past the end. *)
Definition getRequest (b : t) (index : nat) : option InferenceRequest :=
  requests_ b !! index.

Definition empty (b : t) : bool := bool_decide (requests_ b = []).

(** [Batch::size] in a build that compiles [assert] in (no [NDEBUG]):
    [None] is a failed [assert]. *)
Definition size (opts : BuildOptions) (b : t) : option nat :=
  if AMDINFER_ENABLE_TRACING opts
     && negb (bool_decide (length (requests_ b) = length (traces_ b)))
  then None
  else if AMDINFER_ENABLE_METRICS opts
     && negb (bool_decide (length (requests_ b) = length (start_times_ b)))
  then None
  else Some (length (requests_ b)).

Definition getInputSize (b : t) : nat := length (input_buffers_ b).
Definition getOutputSize (b : t) : nat := length (output_buffers_ b).

Definition setBuffers (inputs outputs : list BufferPtr) (b : t) : t :=
  mk (requests_ b) inputs outputs (traces_ b) (start_times_ b).

(** Only declared under [AMDINFER_ENABLE_TRACING]. *)
Definition addTrace (trace : TracePtr) (b : t) : t :=
  mk (requests_ b) (input_buffers_ b) (output_buffers_ b)
     (traces_ b ++ [trace]) (start_times_ b).

Definition getTrace (b : t) (index : nat) : option TracePtr :=
  traces_ b !! index.

(** Only declared under [AMDINFER_ENABLE_METRICS]. *)
Definition addTime (timestamp : time_point) (b : t) : t :=
  mk (requests_ b) (input_buffers_ b) (output_buffers_ b)
     (traces_ b) (start_times_ b ++ [timestamp]).

Definition getTime (b : t) (index : nat) : option time_point :=
  start_times_ b !! index.

(** The mutating interface of a [Batch], as a command language, so that
    histories of calls can be quantified over. *)
Inductive Call :=
| CallAddRequest (request : InferenceRequest)
| CallSetBuffers (inputs outputs : list BufferPtr)
| CallGetInputBuffers
| CallGetOutputBuffers
| CallAddTrace (trace : TracePtr)
| CallAddTime (timestamp : time_point).

Definition step (b : t) (c : Call) : t :=
  match c with
  | CallAddRequest r => addRequest r b
  | CallSetBuffers i o => setBuffers i o b
  | CallGetInputBuffers => snd (getInputBuffers b)
  | CallGetOutputBuffers => snd (getOutputBuffers b)
  | CallAddTrace tr => addTrace tr b
  | CallAddTime ts => addTime ts b
  end.

Definition run_calls (b : t) (cs : list Call) : t := foldl step b cs.

Definition is_addRequest (c : Call) : bool :=
  match c with CallAddRequest _ => true | _ => false end.
Definition is_addTrace (c : Call) : bool :=
  match c with CallAddTrace _ => true | _ => false end.
Definition is_addTime (c : Call) : bool :=
  match c with CallAddTime _ => true | _ => false end.
Definition touches_buffers (c : Call) : bool :=
  match c with
  | CallSetBuffers _ _ | CallGetInputBuffers | CallGetOutputBuffers => true
  | _ => false
  end.

Definition count (p : Call -> bool) (cs : list Call) : nat :=
  length (List.filter p cs).

End Batch.

(* ===================================================================== *)
(** ** The Echo worker (workers/echo.cpp)                                 *)
(* ===================================================================== *)

Module Echo.
Import Machine Core.

(** What the worker thread does that is visible outside: it runs the
    callback of a request with a response. *)
Inductive Event :=
| RunCallbackOnce (callback : nat) (resp : InferenceResponse).

(** [std::string output_name; if (i < outputs.size()) output_name =
    outputs[i].getName();] *)
Definition requested_name (outputs : list InferenceRequestOutput) (i : nat)
  : string :=
  match outputs !! i with
  | Some o => ro_name o
  | None => ""%string
  end.

(** One iteration of the loop over [i] in [Echo::doRun]: the output
    built for input [i].  [value++] is [uint32_t] arithmetic; the
    [catch] branch around it cannot be entered.  [None] is undefined
    behaviour (reading a region shorter than a [uint32_t], or
    [inputs[0]] of an empty vector). *)
Definition echo_output (inputs : list InferenceRequestInput)
    (outputs : list InferenceRequestOutput) (i : nat)
  : option InferenceResponseOutput :=
  input ← inputs !! i;
  value ← read_u32 (in_data input);
  let value := wrap32 (value + 1) in
  let output_name := requested_name outputs i in
  name ← (if decide (output_name = ""%string)
          then in_name <$> inputs !! 0%nat      (* inputs[0].getName() *)
          else Some output_name);
  Some (mkOutput name [1] DataType.Uint32 (encode_u32 value)).

(** The body of the loop over [j]: the response for one request. *)
Definition respond (req : InferenceRequest) : option InferenceResponse :=
  let inputs := req_inputs req in
  let outputs := req_outputs req in
  outs ← mapM (echo_output inputs outputs) (seq 0 (length inputs));
  Some (mkResponse (req_id req) "echo" outs).

(** One batch: [for (j = 0; j < batch->size(); j++)].  The tracing and
    metrics sinks are not modelled, but their checked accessors
    [getTrace(j)] and [getTime(j)] are, since they can throw. *)
Definition run_request (opts : BuildOptions) (batch : Batch.t) (j : nat)
  : option Event :=
  req ← Batch.getRequest batch j;
  _ ← (if AMDINFER_ENABLE_TRACING opts
       then Batch.getTrace batch j else Some 0%nat);
  resp ← respond req;
  _ ← (if AMDINFER_ENABLE_METRICS opts
       then Batch.getTime batch j else Some 0);
  Some (RunCallbackOnce (req_callback req) resp).

Definition run_batch (opts : BuildOptions) (batch : Batch.t)
  : option (list Event) :=
  n ← Batch.size opts batch;
  mapM (run_request opts batch) (seq 0 n).

(** [Echo::doRun]: dequeue batches until the null sentinel.  The queue is
    given as the sequence of batches that will ever be enqueued ([None]
    is [nullptr]); when it runs dry the thread blocks in [wait_dequeue],
    having produced the events so far.  The result [None] is a crash
    (failed assertion, uncaught exception or undefined behaviour). *)
Fixpoint doRun (opts : BuildOptions) (input_queue : list (option Batch.t))
  : option (list Event) :=
  match input_queue with
  | [] => Some []
  | None :: _ => Some []
  | Some batch :: rest =>
      evs ← run_batch opts batch;
      evs' ← doRun opts rest;
      Some (evs ++ evs')
  end.

End Echo.

(* ===================================================================== *)
(** ** The [echo] model (models/echo.cpp)                                 *)
(* ===================================================================== *)

Module EchoModel.
Import Machine Core.

Definition getInputs : list InferenceRequestInput :=
  [mkInput "" [1] DataType.Uint32 []].

Definition getOutputs : list InferenceRequestInput :=
  [mkInput "" [1] DataType.Uint32 []].

(** [util::copy(value, dst)] for a [uint32_t]: [memcpy] of four bytes to
    the start of the region. *)
Definition copy_u32 (value : Z) (dst : list byte) : option (list byte) :=
  write_bytes dst 0 (encode_u32 value).

(** The loop over [i]: input [i] of the request is incremented and stored
    in the data of input [i] of the new request ([new_inputs.at(i)]
    throws past the end). *)
Definition run_input (inputs : list InferenceRequestInput)
    (new_inputs : list InferenceRequestInput) (i : nat)
  : option (list InferenceRequestInput) :=
  input ← inputs !! i;
  value ← read_u32 (in_data input);
  let value := wrap32 (value + 1) in
  target ← new_inputs !! i;
  data ← copy_u32 value (in_data target);
  Some (<[i := mkInput (in_name target) (in_shape target)
                       (in_datatype target) data]> new_inputs).

Definition run_inputs (inputs new_inputs : list InferenceRequestInput)
  : option (list InferenceRequestInput) :=
  foldl (fun acc i => new ← acc; run_input inputs new i)
        (Some new_inputs) (seq 0 (length inputs)).

(** The loop over [j]: request [j] of [batch] is echoed into request [j]
    of [new_batch], whose callback becomes that of the request; the trace
    and start time move over when enabled. *)
Definition run_request (opts : BuildOptions) (batch : Batch.t)
    (new_batch : Batch.t) (j : nat) : option Batch.t :=
  req ← Batch.getRequest batch j;
  trace ← (if AMDINFER_ENABLE_TRACING opts
           then Batch.getTrace batch j else Some 0%nat);
  new_request ← Batch.getRequest new_batch j;
  new_inputs ← run_inputs (req_inputs req) (req_inputs new_request);
  let new_request :=
    mkRequest (req_id new_request) new_inputs (req_outputs new_request)
              (req_callback req) in
  let new_batch :=
    Batch.mk (<[j := new_request]> (Batch.requests_ new_batch))
             (Batch.input_buffers_ new_batch)
             (Batch.output_buffers_ new_batch)
             (Batch.traces_ new_batch) (Batch.start_times_ new_batch) in
  let new_batch :=
    if AMDINFER_ENABLE_TRACING opts
    then Batch.addTrace trace new_batch else new_batch in
  if AMDINFER_ENABLE_METRICS opts
  then time ← Batch.getTime batch j; Some (Batch.addTime time new_batch)
  else Some new_batch.

Definition run (opts : BuildOptions) (batch new_batch : Batch.t)
  : option Batch.t :=
  batch_size ← Batch.size opts batch;
  foldl (fun acc j => nb ← acc; run_request opts batch nb j)
        (Some new_batch) (seq 0 batch_size).

End EchoModel.

(* ===================================================================== *)
(** ** The [echo_multi] model (models/echo_multi.cpp)                     *)
(* ===================================================================== *)

Module EchoMulti.
Import Machine Core.

Definition kInputTensors : nat := 2.
Definition kInputLengths : list nat := [1; 2]%nat.
Definition kOutputTensors : nat := 3.
Definition kOutputLengths : list nat := [1; 4; 3]%nat.

(** [std::to_string(i)] for the indices that occur. *)
Definition to_string (i : nat) : string :=
  String (Ascii.ascii_of_nat (48 + i)) EmptyString.

Definition getInputs : list InferenceRequestInput :=
  imap (fun i len => mkInput ("input" +:+ to_string i) [Z.of_nat len]
                            DataType.Uint32 [])
       kInputLengths.

Definition getOutputs : list InferenceRequestInput :=
  imap (fun i len => mkInput ("output" +:+ to_string i) [Z.of_nat len]
                            DataType.Uint32 [])
       kOutputLengths.

(** [util::containerSum]: [std::accumulate] with [init = 0] and [plus]. *)
Definition containerSum (c : list nat) : nat := foldl Nat.add 0%nat c.

(** The first pair of loops: the elements of input [i] are appended to
    [args], a [std::vector<int>] (so each [uint32_t] is converted to
    [int]).  [inputs[i]] is unchecked. *)
Definition gather_input (inputs : list InferenceRequestInput) (i : nat)
  : option (list Z) :=
  input ← inputs !! i;
  len ← kInputLengths !! i;
  mapM (fun k => wrap_int <$> read_u32_at (in_data input) k) (seq 0 len).

Definition gather_args (inputs : list InferenceRequestInput)
  : option (list Z) :=
  foldl (fun acc i => args ← acc; more ← gather_input inputs i;
                      Some (args ++ more))
        (Some []) (seq 0 kInputTensors).

(** [data = util::copy(args[input_index], data)]: the four bytes of an
    [int] are stored at the write position, which then advances by four;
    [input_index = (input_index + 1) % input_num]. *)
Definition fill_element (args : list Z) (input_num : nat)
    (st : list byte * nat) (k : nat) : option (list byte * nat) :=
  let '(region, input_index) := st in
  arg ← args !! input_index;
  region ← write_bytes region (4 * k) (encode_u32 (wrap32 arg));
  Some (region, ((input_index + 1) mod input_num)%nat).

(** The loop over the output tensors: output [i] receives
    [kOutputLengths.at(i)] elements; [new_inputs.at(i)] throws past the
    end. *)
Definition fill_output (args : list Z) (input_num : nat)
    (st : list InferenceRequestInput * nat) (i : nat)
  : option (list InferenceRequestInput * nat) :=
  let '(new_inputs, input_index) := st in
  len ← kOutputLengths !! i;
  target ← new_inputs !! i;
  '(region, input_index) ←
    foldl (fun acc k => s ← acc; fill_element args input_num s k)
          (Some (in_data target, input_index)) (seq 0 len);
  Some (<[i := mkInput (in_name target) (in_shape target)
                       (in_datatype target) region]> new_inputs,
        input_index).

Definition fill_outputs (args : list Z) (input_num : nat)
    (new_inputs : list InferenceRequestInput)
  : option (list InferenceRequestInput) :=
  fst <$> foldl (fun acc i => s ← acc; fill_output args input_num s i)
                (Some (new_inputs, 0%nat)) (seq 0 kOutputTensors).

(** The loop over [j]. *)
Definition run_request (opts : BuildOptions) (batch : Batch.t)
    (new_batch : Batch.t) (j : nat) : option Batch.t :=
  req ← Batch.getRequest batch j;
  trace ← (if AMDINFER_ENABLE_TRACING opts
           then Batch.getTrace batch j else Some 0%nat);
  new_request ← Batch.getRequest new_batch j;
  let input_num := containerSum kInputLengths in
  _ ← guard (input_num ≠ 0%nat);              (* assert(input_num != 0) *)
  args ← gather_args (req_inputs req);
  new_inputs ← fill_outputs args input_num (req_inputs new_request);
  let new_request :=
    mkRequest (req_id new_request) new_inputs (req_outputs new_request)
              (req_callback req) in
  let new_batch :=
    Batch.mk (<[j := new_request]> (Batch.requests_ new_batch))
             (Batch.input_buffers_ new_batch)
             (Batch.output_buffers_ new_batch)
             (Batch.traces_ new_batch) (Batch.start_times_ new_batch) in
  let new_batch :=
    if AMDINFER_ENABLE_TRACING opts
    then Batch.addTrace trace new_batch else new_batch in
  if AMDINFER_ENABLE_METRICS opts
  then time ← Batch.getTime batch j; Some (Batch.addTime time new_batch)
  else Some new_batch.

Definition run (opts : BuildOptions) (batch new_batch : Batch.t)
  : option Batch.t :=
  batch_size ← Batch.size opts batch;
  foldl (fun acc j => nb ← acc; run_request opts batch nb j)
        (Some new_batch) (seq 0 batch_size).

(** Modelled from the spec: the request that [run] fills is allocated by
    the batcher, which is not among the sources ("allocates ... an
    output-buffer set sized to the declared outputs"): one tensor per
    declared output, with a zeroed region of [product(shape) * 4] bytes. *)
Definition allocate (declared : list InferenceRequestInput)
  : list InferenceRequestInput :=
  (fun t => mkInput (in_name t) (in_shape t) (in_datatype t)
                    (replicate (Z.to_nat (4 * foldr Z.mul 1 (in_shape t))) 0))
    <$> declared.

End EchoMulti.

(* ===================================================================== *)
(** ** Client helpers (clients/client.cpp)                                *)
(* ===================================================================== *)

Module Client.
Import Machine.

(** How a call can end. [Undefined] is undefined behaviour ([front()] of
    an empty queue, an index past the end of a vector); [OutOfFuel] means
    the loop did not finish within the given number of iterations. *)
Inductive Outcome (A : Type) :=
| Returns (a : A)
| Undefined
| OutOfFuel.
Arguments Returns {A} a.
Arguments Undefined {A}.
Arguments OutOfFuel {A}.

Section WithClient.
Context {Request Response : Type}.

(** The server as the helpers see it through the abstract [Client]: the
    response that the future of the [k]-th submission resolves to. *)
Context (response_to : nat -> string -> Request -> Response).

(** The calls of [modelInferAsync] made so far, in order. *)
Definition Log := list (string * Request).

(** An [InferenceResponseFuture]: the ticket of a submission. *)
Record Future := mkFuture {
  ticket : nat;
  fut_model : string;
  fut_request : Request;
}.

Definition modelInferAsync (model : string) (request : Request) (log : Log)
  : Future * Log :=
  (mkFuture (length log) model request, log ++ [(model, request)]).

Definition get (fut : Future) : Response :=
  response_to (ticket fut) (fut_model fut) (fut_request fut).

(** [for (i = from; i < to; ++i) q.push(client->modelInferAsync(model,
    requests[i]))]; [requests[i]] is unchecked. *)
Definition submit_range (model : string) (requests : list Request)
    (from to : Z) (st : list Future * Log) : option (list Future * Log) :=
  foldl (fun acc i =>
           '(q, log) ← acc;
           request ← requests !! Z.to_nat i;
           let '(fut, log) := modelInferAsync model request log in
           Some (q ++ [fut], log))
        (Some st) (seqZ from (to - from)).

(** [auto& future = q.front(); responses.push_back(future.get());
    q.pop();] *)
Definition collect_one (st : list Future * list Response)
  : option (list Future * list Response) :=
  match fst st with
  | [] => None
  | fut :: q => Some (q, snd st ++ [get fut])
  end.

(** [for (i = 0U; i < count; ++i) { ... }] around [collect_one]. *)
Definition collect (count : Z) (st : list Future * list Response)
  : option (list Future * list Response) :=
  Nat.iter (Z.to_nat count) (fun acc => s ← acc; collect_one s) (Some st).

(** [inferAsyncOrdered]: everything is submitted, then awaited in order. *)
Definition inferAsyncOrdered (model : string) (requests : list Request)
    (log : Log) : Outcome (list Response * Log) :=
  let num_requests := Z.of_nat (length requests) in
  match submit_range model requests 0 num_requests ([], log) with
  | None => Undefined
  | Some (q, log) =>
      match collect num_requests (q, []) with
      | None => Undefined
      | Some (_, responses) => Returns (responses, log)
      end
  end.

(** The local variables of [inferAsyncOrderedBatched]. *)
Record Locals := mkLocals {
  start_index : Z;                 (* unsigned int *)
  q : list Future;
  responses : list Response;
  log : Log;
}.

(** The [while (start_index + batch_size < num_requests)] loop.  Its first
    inner loop runs [i] from [start_index] while [i < batch_size], exactly
    as written in the source. *)
Fixpoint windows (fuel : nat) (model : string) (requests : list Request)
    (batch_size : Z) (l : Locals) : Outcome Locals :=
  let num_requests := Z.of_nat (length requests) in
  match fuel with
  | O => OutOfFuel
  | S fuel =>
      if decide (wrap64 (start_index l + batch_size) < num_requests) then
        match submit_range model requests (start_index l) batch_size
                           (q l, log l) with
        | None => Undefined
        | Some (q1, log1) =>
            match collect batch_size (q1, responses l) with
            | None => Undefined
            | Some (q2, responses2) =>
                windows fuel model requests batch_size
                  (mkLocals (wrap32 (start_index l + batch_size))
                            q2 responses2 log1)
            end
        end
      else Returns l
  end.

(** [inferAsyncOrderedBatched(client, model, requests, batch_size)], with
    the log of the client's submissions threaded through.  [batch_size]
    is a [size_t]; request vectors are taken to be shorter than 2^32, so
    that the [unsigned] counters of the [for] loops do not wrap. *)
Definition inferAsyncOrderedBatched (fuel : nat) (model : string)
    (requests : list Request) (batch_size : Z) (log0 : Log)
  : Outcome (list Response * Log) :=
  let num_requests := Z.of_nat (length requests) in
  match windows fuel model requests batch_size (mkLocals 0 [] [] log0) with
  | OutOfFuel => OutOfFuel
  | Undefined => Undefined
  | Returns l =>
      if decide (start_index l ≠ num_requests) then
        match submit_range model requests (start_index l) num_requests
                           (q l, log l) with
        | None => Undefined
        | Some (q1, log1) =>
            match collect (wrap64 (num_requests - start_index l))
                          (q1, responses l) with
            | None => Undefined
            | Some (_, responses2) => Returns (responses2, log1)
            end
        end
      else Returns (responses l, log l)
  end.

(** What the claim about [inferAsyncOrderedBatched] asks for, in the
    words of the specification: every request submitted once, in order,
    and the i-th response answering the i-th submission. *)
Definition ordered_result (model : string) (requests : list Request)
    (log0 : Log) : list Response * Log :=
  (imap (fun i request => response_to (length log0 + i) model request)
        requests,
   log0 ++ ((fun request => (model, request)) <$> requests)).

(** The futures and the log entries that submitting the requests [sub]
    adds to a log. *)
Definition futures_of (model : string) (log : Log) (sub : list Request)
  : list Future :=
  imap (fun i request => mkFuture (length log + i) model request) sub.

Definition entries_of (model : string) (sub : list Request) : Log :=
  (fun request => (model, request)) <$> sub.

End WithClient.
End Client.

(* ===================================================================== *)
(** ** The HTTP client (clients/http.cpp)                                 *)
(* ===================================================================== *)

Module HttpClient.
Import Machine Core.

(** [drogon::ReqResult]. *)
Inductive ReqResult :=
| Ok | BadResponse | NetworkFailure | BadServerAddress | Timeout
| HandshakeError | InvalidCertificate | OtherResult (code : Z).

(** The exception types of [core/exceptions.hpp] thrown here. *)
Inductive Exception :=
| invalid_argument (what : string)
| bad_status (what : string)
| connection_error (what : string).

(** A call either returns or throws. *)
Inductive Result (A : Type) :=
| Value (a : A)
| Throws (e : Exception).
Arguments Value {A} a.
Arguments Throws {A} e.

Inductive Method := Get | Post.

Section WithWire.
(** [Json::Value] and the converters of [http_internal.hpp], which are
    not among the sources. *)
Context {Json : Type}.
Context (mapRequestToJson : InferenceRequest -> Json).
Context (mapJsonToResponse : Json -> InferenceResponse).

Record HttpRequest := mkHttpRequest {
  http_method : Method;
  http_path : string;
  http_body : option Json;
  http_headers : list (string * string);
}.

Record HttpResponse := mkHttpResponse {
  statusCode : Z;
  body : string;
  jsonObject : Json;
}.

(** The network and the server behind it: what [sendRequest] yields. *)
Context (sendRequest : HttpRequest -> ReqResult * HttpResponse).

Definition k200OK : Z := 200.

(** [HttpClientImpl] together with the record of what has been put on
    the wire: [sent] lists the requests handed to [sendRequest], with the
    index of the pooled client used. *)
Record State := mkState {
  headers_ : list (string * string);
  counter_ : Z;
  num_clients_ : Z;
  sent : list (Z * HttpRequest);
}.

(** [HttpClientImpl::getClient]: round robin over the pool.  The code
    indexes [clients_] with the counter and takes the remainder by
    [num_clients_], so it is defined on a pool that is not empty and a
    counter inside it; the properties of the calls that reach it carry
    this as a hypothesis. *)
Definition getClient (st : State) : Z * State :=
  (counter_ st,
   mkState (headers_ st) ((counter_ st + 1) `rem` num_clients_ st)
           (num_clients_ st) (sent st)).

Definition checkError (result : ReqResult) : Result unit :=
  match result with
  | Ok => Value ()
  | BadResponse => Throws (bad_status "Bad response")
  | NetworkFailure => Throws (bad_status "Network failure")
  | BadServerAddress => Throws (connection_error "Cannot connect to the server")
  | Timeout => Throws (bad_status "Timeout")
  | HandshakeError => Throws (bad_status "Handshake error")
  | InvalidCertificate => Throws (bad_status "Invalid certificate")
  | OtherResult code =>
      (* "Request error code: " + std::to_string(static_cast<int>(result)) *)
      Throws (bad_status ("Request error code: " +:+ pretty code))
  end.

Definition createPostRequest (json : Json) (path : string)
    (headers : list (string * string)) : HttpRequest :=
  mkHttpRequest Post path (Some json) headers.

Definition createInferenceRequest (model : string)
    (request : InferenceRequest) (headers : list (string * string))
  : Result HttpRequest :=
  if bool_decide (req_inputs request = [])
  then Throws (invalid_argument "The request's inputs cannot be empty")
  else
    let json := mapRequestToJson request in
    Value (createPostRequest json ("/v2/models/" +:+ model +:+ "/infer")
                             headers).

(** Handing a request to a pooled client. *)
Definition send (client : Z) (req : HttpRequest) (st : State) : State :=
  mkState (headers_ st) (counter_ st) (num_clients_ st)
          (sent st ++ [(client, req)]).

(** What the promise of [modelInferAsync] is eventually set to: a
    response, or an error-bearing response. *)
Inductive Promised :=
| PromisedResponse (resp : InferenceResponse)
| PromisedError (error : string)
| Escapes (e : Exception).      (* an exception the lambda does not catch *)

Definition on_reply (reply : ReqResult * HttpResponse) : Promised :=
  (* std::string error; try { checkError(result); if (status != 200)
     throw bad_status(body); } catch (const bad_status& e)
     { error = e.what(); } *)
  match checkError (fst reply) with
  | Throws (bad_status what) =>
      if decide (what = ""%string)
      then PromisedResponse (mapJsonToResponse (jsonObject (snd reply)))
      else PromisedError what
  | Throws e => Escapes e
  | Value _ =>
      let error :=
        if decide (statusCode (snd reply) ≠ k200OK)
        then body (snd reply) else ""%string in
      (* if (error.empty()) set_value(mapJsonToResponse(...));
         else set_value(InferenceResponse(error)); *)
      if decide (error = ""%string)
      then PromisedResponse (mapJsonToResponse (jsonObject (snd reply)))
      else PromisedError error
  end.

Definition modelInferAsync (model : string) (request : InferenceRequest)
    (st : State) : Result Promised * State :=
  match createInferenceRequest model request (headers_ st) with
  | Throws e => (Throws e, st)
  | Value req =>
      let '(client, st) := getClient st in
      let st := send client req st in
      (Value (on_reply (sendRequest req)), st)
  end.

Definition modelInfer (model : string) (request : InferenceRequest)
    (st : State) : Result InferenceResponse * State :=
  match createInferenceRequest model request (headers_ st) with
  | Throws e => (Throws e, st)
  | Value req =>
      let '(client, st) := getClient st in
      let st := send client req st in
      let '(result, response) := sendRequest req in
      match checkError result with
      | Throws e => (Throws e, st)
      | Value _ =>
          if decide (statusCode response ≠ k200OK)
          then (Throws (bad_status (body response)), st)
          else (Value (mapJsonToResponse (jsonObject response)), st)
      end
  end.

End WithWire.
End HttpClient.

(* ===================================================================== *)
(** ** The model repository (core/model_repository.cpp)                   *)
(* ===================================================================== *)

Module ModelRepository.
Import Machine.

(** [amdinfer::Parameter], a variant of bool, int, double and string.  A
    double is carried as its bit pattern. *)
Inductive ParameterVariant :=
| PBool (b : bool)
| PInt (i : Z)
| PDouble (bits : Z)
| PString (s : string).

(** [inference::InferParameter2]: the [parameter_choice] oneof. *)
Inductive InferParameter2 :=
| kBoolParam (b : bool)
| kInt64Param (i : Z)
| kDoubleParam (bits : Z)
| kStringParam (s : string)
| PARAMETER_CHOICE_NOT_SET.

(** A tensor entry of [inference::Config]. *)
Record ConfigTensor := mkConfigTensor {
  ct_name : string;
  ct_shape : list Z;                 (* repeated int64 *)
}.

(** [inference::Config], the content of [config.pbtxt].  The parameter
    map is listed in the order in which it is iterated. *)
Record Config := mkConfig {
  cfg_platform : string;
  cfg_inputs : list ConfigTensor;
  cfg_outputs : list ConfigTensor;
  cfg_parameters : list (string * InferParameter2);
}.

(** What opening and parsing a path gives. *)
Inductive FileContent :=
| CannotOpen
| CannotParse
| Parsed (config : Config).

(** The file system as [parseModel] sees it. *)
Record FileSystem := mkFileSystem {
  fs_exists : string -> bool;
  fs_read : string -> FileContent;
}.

(** How [parseModel] can end other than by returning. *)
Inductive Failure :=
| file_not_found_error (what : string)
| file_read_error (what : string)
| invalid_argument (what : string)
| check_failed.                (* [RepeatedField::at] out of range *)

Inductive Result (A : Type) :=
| Done (a : A)
| Fails (f : Failure).
Arguments Done {A} a.
Arguments Fails {A} f.

(** [fs::path::operator/] on POSIX paths, as strings: an absolute right
    operand replaces the left one; otherwise a separator is added when
    the left operand has a file name (it is not empty and does not end in
    a separator), and the right operand is appended. *)
Definition separator : Ascii.ascii := Ascii.ascii_of_nat 47.   (* '/' *)

Definition is_absolute (p : string) : bool :=
  match p with
  | String c _ => Ascii.eqb c separator
  | EmptyString => false
  end.

Fixpoint has_filename (p : string) : bool :=
  match p with
  | EmptyString => false
  | String c EmptyString => negb (Ascii.eqb c separator)
  | String _ rest => has_filename rest
  end.

Definition path_join (p q : string) : string :=
  if is_absolute q then q
  else if has_filename p then p +:+ "/" +:+ q
  else p +:+ q.

(** The first lines of [parseModel]: the model directory and the config
    file in it.  KServe can create [model/model/config.pbtxt]; that path
    is used when [model/config.pbtxt] does not exist and it does. *)
Definition locate (fs : FileSystem) (repository model : string)
  : string * string :=
  let config_file := "config.pbtxt" in
  let model_path := path_join repository model in
  let config_path := path_join model_path config_file in
  if negb (fs_exists fs config_path)
     && fs_exists fs (path_join (path_join model_path model) config_file)
  then (path_join model_path model,
        path_join (path_join model_path model) config_file)
  else (model_path, config_path).

Section WithParameterMap.
(** [ParameterMap] and its [put] are not among the sources; [parseModel]
    is embedded over any map type with a [put]. *)
Context {ParameterMap : Type}.
Context (put : string -> ParameterVariant -> ParameterMap -> ParameterMap).

Definition mapProtoToParameters2 (params : list (string * InferParameter2))
    (parameters : ParameterMap) : ParameterMap :=
  foldl (fun parameters kv =>
           match kv.2 with
           | kBoolParam b => put kv.1 (PBool b) parameters
           | kInt64Param i => put kv.1 (PInt (wrap_int i)) parameters
           | kDoubleParam d => put kv.1 (PDouble d) parameters
           | kStringParam s => put kv.1 (PString s) parameters
           | PARAMETER_CHOICE_NOT_SET => parameters
           end)
        parameters params.

(** [shape.at(i)] of a [RepeatedField]. *)
Definition at_ (shape : list Z) (i : Z) : Result Z :=
  if decide (0 <= i) then
    match shape !! Z.to_nat i with
    | Some d => Done d
    | None => Fails check_failed
    end
  else Fails check_failed.

(** The loop over the inputs in the [tensorflow_graphdef] branch. *)
Definition put_input (acc : Result ParameterMap) (input : ConfigTensor)
  : Result ParameterMap :=
  match acc with
  | Fails f => Fails f
  | Done parameters =>
      let parameters := put "input_node" (PString (ct_name input)) parameters in
      let shape := ct_shape input in
      match at_ shape 0 with
      | Fails f => Fails f
      | Done first =>
          let parameters :=
            put "input_size" (PInt (wrap_int first)) parameters in
          match at_ shape (Z.of_nat (length shape) - 1) with
          | Fails f => Fails f
          | Done last =>
              Done (put "image_channels" (PInt (wrap_int last)) parameters)
          end
      end
  end.

(** The loop over the outputs in the [tensorflow_graphdef] branch. *)
Definition put_output (acc : Result ParameterMap) (output : ConfigTensor)
  : Result ParameterMap :=
  match acc with
  | Fails f => Fails f
  | Done parameters =>
      let parameters :=
        put "output_node" (PString (ct_name output)) parameters in
      match at_ (ct_shape output) 0 with
      | Fails f => Fails f
      | Done first =>
          Done (put "output_classes" (PInt (wrap_int first)) parameters)
      end
  end.

(** The chain of comparisons on [config.platform()]. *)
Definition dispatch_platform (config : Config) (model_base : string)
    (parameters : ParameterMap) : Result ParameterMap :=
  if decide (cfg_platform config = "tensorflow_graphdef") then
    match foldl put_input (Done parameters) (cfg_inputs config) with
    | Fails f => Fails f
    | Done parameters =>
        match foldl put_output (Done parameters) (cfg_outputs config) with
        | Fails f => Fails f
        | Done parameters =>
            let parameters := put "worker" (PString "tfzendnn") parameters in
            Done (put "model" (PString (model_base +:+ ".pb")) parameters)
        end
    end
  else if decide (cfg_platform config = "pytorch_torchscript") then
    let parameters := put "worker" (PString "ptzendnn") parameters in
    Done (put "model" (PString (model_base +:+ ".pt")) parameters)
  else if decide (cfg_platform config = "onnx_onnxv1") then
    let parameters := put "worker" (PString "migraphx") parameters in
    Done (put "model" (PString (model_base +:+ ".onnx")) parameters)
  else if decide (cfg_platform config = "migraphx_mxr") then
    let parameters := put "worker" (PString "migraphx") parameters in
    Done (put "model" (PString (model_base +:+ ".mxr")) parameters)
  else if decide (cfg_platform config = "vitis_xmodel") then
    let parameters := put "worker" (PString "xmodel") parameters in
    Done (put "model" (PString (model_base +:+ ".xmodel")) parameters)
  else
    Fails (invalid_argument ("Unknown platform: " +:+ cfg_platform config)).

Definition parseModel (fs : FileSystem) (repository model : string)
    (parameters : ParameterMap) : Result ParameterMap :=
  let '(model_path, config_path) := locate fs repository model in
  let model_base := path_join model_path "1/saved_model" in
  match fs_read fs config_path with
  | CannotOpen =>
      Fails (file_not_found_error
               ("Config file " +:+ config_path +:+ " could not be opened"))
  | CannotParse =>
      Fails (file_read_error
               ("Config file " +:+ config_path +:+ " could not be parsed"))
  | Parsed config =>
      match dispatch_platform config model_base parameters with
      | Fails f => Fails f
      | Done parameters =>
          Done (mapProtoToParameters2 (cfg_parameters config) parameters)
      end
  end.

End WithParameterMap.

(** The map that records every [put] in order; any [put] of the real
    [ParameterMap] is determined by this record. *)
Abbreviation PutLog := (list (string * ParameterVariant)).
Definition log_put (key : string) (value : ParameterVariant) (l : PutLog)
  : PutLog :=
  l ++ [(key, value)].




(** The table of the specification: platform to worker kind. *)
Definition worker_of_platform (p : string) : option string :=
  if decide (p = "tensorflow_graphdef") then Some "tfzendnn"
  else if decide (p = "pytorch_torchscript") then Some "ptzendnn"
  else if decide (p = "onnx_onnxv1") then Some "migraphx"
  else if decide (p = "migraphx_mxr") then Some "migraphx"
  else if decide (p = "vitis_xmodel") then Some "xmodel"
  else None.


End ModelRepository.

(* ===================================================================== *)
(** ** [Buffer] (buffers/buffer.hpp)                                      *)
(* ===================================================================== *)

Module Buffer.
Import Machine.

(** A contiguous buffer: [data(offset)] is the address of byte [offset]
    of its region. *)
Record t := mk { region : list byte }.

(** The argument of the template [write<T>]: a [std::string], or a value
    of any other type, given by its object representation ([sizeof(T)]
    bytes). *)
Inductive Value :=
| StringValue (value : string)
| ObjectValue (repr : list byte).

Definition sizeof (repr : list byte) : Z := Z.of_nat (length repr).

(** The characters of a string, as bytes. *)
Definition chars (s : string) : list byte :=
  (fun c => Z.of_nat (Ascii.nat_of_ascii c)) <$> String.list_ascii_of_string s.

(** Modelled from the spec: the non-template
    [write(void* data, size_t offset, size_t size)] is only declared in
    the header.  The specification gives [write] as "write(value, offset)
    -> new offset", and the gRPC server threads the result through as the
    next offset ([offset = buffer->write(..., offset)]): it copies [size]
    bytes to [data(offset)] and returns the offset behind them.  (The
    header comment words the result as the number of bytes written.) *)
Definition write_raw (data : list byte) (offset size : Z) (b : t)
  : option (t * Z) :=
  region ← write_bytes (region b) (Z.to_nat offset)
                       (take (Z.to_nat size) data);
  Some (mk region, wrap64 (offset + size)).

(** The template [Buffer::write(T value, size_t offset)].  [None] is a
    write outside the buffer. *)
Definition write (value : Value) (offset : Z) (b : t) : option (t * Z) :=
  match value with
  | StringValue value =>
      let length := Z.of_nat (String.length value) in
      (* std::copy(value.begin(), value.end(), data(offset)) *)
      region ← write_bytes (region b) (Z.to_nat offset) (chars value);
      (* memcpy(data(offset) + value.length(), &null_term, 1) *)
      region ← write_bytes region (Z.to_nat (offset + length)) [0];
      Some (mk region, wrap64 (offset + length + 1))
  | ObjectValue repr => write_raw repr offset (sizeof repr) b
  end.

End Buffer.

(* ===================================================================== *)
(** ** [VartTensorBuffer] (buffers/vart_tensor.cpp)                       *)
(* ===================================================================== *)

Module VartTensorBuffer.
Import Machine.

(** [auto stride = 1; for (m = k + 1; m < size; m++) stride *= dims[m];]
    in [int] arithmetic. *)
Definition stride (dims : list Z) (k : nat) : Z :=
  foldl (fun stride d => wrap_int (stride * d)) 1 (drop (S k) dims).

(** One iteration of the loop over [k].  [offset] is a [size_t], so
    [offset / stride] converts [stride] to [size_t]; the quotient is cast
    to [int]; [shape[k] * stride] is an [int] product, converted back to
    [size_t] for the subtraction.  Division by zero is undefined. *)
Definition data_step (dims : list Z) (st : option (list Z * Z)) (k : nat)
  : option (list Z * Z) :=
  '(shape, offset) ← st;
  let stride := stride dims k in
  if decide (wrap64 stride = 0) then None
  else
    let index := wrap_int (offset / wrap64 stride) in
    Some (<[k := index]> shape,
          wrap64 (offset - wrap64 (wrap_int (index * stride)))).

(** The index vector that [VartTensorBuffer::data(offset)] hands to
    [vart::TensorBuffer::data]. *)
Definition data (dims : list Z) (offset : Z) : option (list Z) :=
  fst <$> foldl (data_step dims)
                (Some (replicate (length dims) 0, offset))
                (seq 0 (length dims)).

(** [product(dims)], the number of elements of the tensor. *)
Definition product (dims : list Z) : Z := foldr Z.mul 1 dims.

(** [sum over k of index[k] * product(dims[k+1..n-1])]. *)
Fixpoint linear (dims index : list Z) : Z :=
  match dims, index with
  | _ :: dims', i :: index' => i * product dims' + linear dims' index'
  | _, _ => 0
  end.

(** An index vector within the bounds of the shape. *)
Definition in_bounds (dims index : list Z) : Prop :=
  Forall2 (fun d i => 0 <= i < d) dims index.

(** The row-major mixed-radix digits of an offset, most significant
    first. *)
Fixpoint decompose (dims : list Z) (offset : Z) : list Z :=
  match dims with
  | [] => []
  | _ :: dims' =>
      offset / product dims' :: decompose dims' (offset mod product dims')
  end.

End VartTensorBuffer.

(* ===================================================================== *)
(** ** Histories of a [Batch]: what was added, in order                   *)
(* ===================================================================== *)

Module BatchHistory.
Import Core Batch.

(** The requests, traces and start times that a history of calls adds,
    in the order of the calls. *)
Definition added_requests (cs : list Call) : list InferenceRequest :=
  omap (fun c => match c with CallAddRequest r => Some r | _ => None end) cs.

Definition added_traces (cs : list Call) : list TracePtr :=
  omap (fun c => match c with CallAddTrace tr => Some tr | _ => None end) cs.

Definition added_times (cs : list Call) : list time_point :=
  omap (fun c => match c with CallAddTime ts => Some ts | _ => None end) cs.

(** [Batch::size] in either kind of build: with [NDEBUG] the [assert]s
    are compiled out, and the call returns the number of requests
    whatever the observations are. *)
Definition size_in_build (NDEBUG : bool) (opts : BuildOptions) (b : t)
  : option nat :=
  if NDEBUG then Some (length (requests_ b)) else size opts b.

End BatchHistory.

(* ===================================================================== *)
(** ** The Echo worker, request by request                                *)
(* ===================================================================== *)

Module EchoOrder.
Import Core Echo.

(** The observations of a batch match its requests, as far as they are
    compiled in. *)
Definition observed (opts : BuildOptions) (batch : Batch.t) : Prop :=
  (AMDINFER_ENABLE_TRACING opts = true ->
   length (Batch.requests_ batch) = length (Batch.traces_ batch))
  /\ (AMDINFER_ENABLE_METRICS opts = true ->
      length (Batch.requests_ batch) = length (Batch.start_times_ batch)).

(** What the worker does for one request. *)
Definition answer (req : InferenceRequest) : option Event :=
  RunCallbackOnce (req_callback req) <$> respond req.

End EchoOrder.

(* ===================================================================== *)
(** ** The [echo] model, in closed form                                   *)
(* ===================================================================== *)

Module EchoModelForm.
Import Machine Core.

(** A region that holds at least one [uint32_t]. *)
Definition readable (t : InferenceRequestInput) : Prop :=
  (4 <= length (in_data t))%nat.

(** The first elements of [ys] are paired with the elements of [xs], the
    others are kept. *)
Definition paired {A B} (g : A -> B -> B) (xs : list A) (ys : list B)
  : list B :=
  zip_with g xs ys ++ drop (length xs) ys.

(** Every element of [xs] has a partner in [ys], and [P] holds of the
    pair. *)
Definition partners {A B} (P : A -> B -> Prop) (xs : list A) (ys : list B)
  : Prop :=
  Forall2 P xs (take (length xs) ys).

(** The tensor of the new request after the model ran on [input]: its
    first four bytes are the first word of [input] plus one. *)
Definition echo_input (input target : InferenceRequestInput)
  : InferenceRequestInput :=
  mkInput (in_name target) (in_shape target) (in_datatype target)
          (encode_u32 (wrap32 (default 0 (read_u32 (in_data input)) + 1))
           ++ drop 4 (in_data target)).

(** The new request after the model ran on [req]. *)
Definition echo_request (req new_request : InferenceRequest)
  : InferenceRequest :=
  mkRequest (req_id new_request)
            (paired echo_input (req_inputs req) (req_inputs new_request))
            (req_outputs new_request) (req_callback req).

(** The inputs of the request and the tensors they are echoed into can
    be read and written. *)
Definition inputs_fit (req new_request : InferenceRequest) : Prop :=
  partners (fun input target => readable input /\ readable target)
           (req_inputs req) (req_inputs new_request).

End EchoModelForm.

(* ===================================================================== *)
(** ** [inferAsyncOrdered] with its submissions and awaits in order       *)
(* ===================================================================== *)

Module ClientTrace.
Import Machine Client.

Section WithClient.
Context {Request Response : Type}.
Context (response_to : nat -> string -> Request -> Response).

(** What the helper does with the client, in the order in which it does
    it: [client->modelInferAsync(model, request)] and [future.get()]. *)
Inductive Event :=
| Submit (model : string) (request : Request)
| Await (ticket : nat).

Definition is_submit (e : Event) : bool :=
  match e with Submit _ _ => true | Await _ => false end.

(** The number of submissions made so far, which identifies the next
    future. *)
Definition submissions (trace : list Event) : nat :=
  length (List.filter is_submit trace).

Definition modelInferAsync (model : string) (request : Request)
    (trace : list Event) : @Future Request * list Event :=
  (mkFuture (submissions trace) model request,
   trace ++ [Submit model request]).

(** [for (const auto& request : requests)
    q.push(client->modelInferAsync(model, request));] *)
Definition submit_all (model : string) (requests : list Request)
    (st : list (@Future Request) * list Event)
  : list (@Future Request) * list Event :=
  foldl (fun st request =>
           let '(fut, trace) := modelInferAsync model request st.2 in
           (st.1 ++ [fut], trace))
        st requests.

(** [for (auto i = 0U; i < num_requests; ++i) { auto& future = q.front();
    responses.push_back(future.get()); q.pop(); }]: [i] is an
    [unsigned int] compared with a [size_t]; [front()] of an empty queue
    is undefined.  The queue shrinks in every iteration. *)
Fixpoint await_all (num_requests i : Z) (q : list (@Future Request))
    (responses : list Response) (trace : list Event) {struct q}
  : Outcome (list Response * list Event) :=
  if decide (i < num_requests) then
    match q with
    | [] => Undefined
    | future :: q =>
        await_all num_requests (wrap32 (i + 1)) q
                  (responses ++ [get response_to future])
                  (trace ++ [Await (ticket future)])
    end
  else Returns (responses, trace).

(** [inferAsyncOrdered(client, model, requests)]. *)
Definition inferAsyncOrdered (model : string) (requests : list Request)
    (trace : list Event) : Outcome (list Response * list Event) :=
  let '(q, trace) := submit_all model requests ([], trace) in
  let num_requests := Z.of_nat (length requests) in
  await_all num_requests 0 q [] trace.

End WithClient.
End ClientTrace.

(* ===================================================================== *)
(** ** Waiting for the server (clients/client.cpp)                        *)
(* ===================================================================== *)

Module ClientWait.

(** What one call of [client->serverReady()] or [client->modelReady()]
    does: it answers, or it throws. *)
Inductive Poll :=
| Answers (ready : bool)
| ThrowsConnectionError
| ThrowsOther (what : string).      (* not a [connection_error] *)

(** How the wait ends on a script of polls: it returns, an exception
    leaves it, or the script is used up while it is still polling.  Each
    case carries the number of polls made and of one-second sleeps. *)
Inductive Outcome :=
| Returns (polls sleeps : nat)
| Throws (what : string) (polls sleeps : nat)
| StillPolling (polls sleeps : nat).

(** [waitUntilServerReady]: [while (!ready) { try { ready =
    client->serverReady(); } catch (const connection_error&) { sleep_for
    (1s); } }].  The arguments [made] and [slept] count what has happened
    so far. *)
Fixpoint waitUntilServerReady_from (made slept : nat) (script : list Poll)
  : Outcome :=
  match script with
  | [] => StillPolling made slept
  | Answers true :: _ => Returns (S made) slept
  | Answers false :: rest => waitUntilServerReady_from (S made) slept rest
  | ThrowsConnectionError :: rest =>
      waitUntilServerReady_from (S made) (S slept) rest
  | ThrowsOther what :: _ => Throws what (S made) slept
  end.

Definition waitUntilServerReady (script : list Poll) : Outcome :=
  waitUntilServerReady_from 0 0 script.

(** [waitUntilModelReady]: [while (!ready) { ready =
    client->modelReady(model); }], with nothing caught and no sleep. *)
Fixpoint waitUntilModelReady_from (made : nat) (script : list Poll)
  : Outcome :=
  match script with
  | [] => StillPolling made 0
  | Answers true :: _ => Returns (S made) 0
  | Answers false :: rest => waitUntilModelReady_from (S made) rest
  | ThrowsConnectionError :: _ => Throws "connection_error" (S made) 0
  | ThrowsOther what :: _ => Throws what (S made) 0
  end.

Definition waitUntilModelReady (script : list Poll) : Outcome :=
  waitUntilModelReady_from 0 script.

(** The polls that keep [waitUntilServerReady] waiting. *)
Definition keeps_waiting (p : Poll) : bool :=
  match p with
  | Answers false | ThrowsConnectionError => true
  | _ => false
  end.

Definition is_connection_error (p : Poll) : bool :=
  match p with ThrowsConnectionError => true | _ => false end.

End ClientWait.

(* ===================================================================== *)
(** ** The HTTP client: health calls and the client pool                  *)
(* ===================================================================== *)

Module HttpHealth.
Import Machine Core HttpClient.

Section WithWire.
Context {Json : Type}.
Context (sendRequest : @HttpRequest Json -> ReqResult * @HttpResponse Json).

Definition createGetRequest (path : string)
    (headers : list (string * string)) : @HttpRequest Json :=
  mkHttpRequest Get path None headers.

(** [HttpClient::serverLive]: the request goes out with a ten second
    timeout; a result other than [Ok] is answered with [false]. *)
Definition serverLive (st : State) : Result bool * State :=
  let '(client, st) := getClient st in
  let req := createGetRequest "/v2/health/live" (headers_ st) in
  let st := send client req st in
  let '(result, response) := sendRequest req in
  match result with
  | Ok => (Value (bool_decide (statusCode response = k200OK)), st)
  | _ => (Value false, st)
  end.

(** [HttpClient::serverReady]. *)
Definition serverReady (st : State) : Result bool * State :=
  let '(client, st) := getClient st in
  let req := createGetRequest "/v2/health/ready" (headers_ st) in
  let st := send client req st in
  let '(result, response) := sendRequest req in
  match checkError result with
  | Throws e => (Throws e, st)
  | Value _ => (Value (bool_decide (statusCode response = k200OK)), st)
  end.

(** [HttpClient::modelReady]. *)
Definition modelReady (model : string) (st : State) : Result bool * State :=
  let '(client, st) := getClient st in
  let req := createGetRequest ("/v2/models/" +:+ model +:+ "/ready")
                              (headers_ st) in
  let st := send client req st in
  let '(result, response) := sendRequest req in
  match checkError result with
  | Throws e => (Throws e, st)
  | Value _ => (Value (bool_decide (statusCode response = k200OK)), st)
  end.

(** [k] successive calls of [getClient]: the clients handed out, in
    order, and the pool afterwards. *)
Fixpoint getClients (k : nat) (st : @State Json) : list Z * @State Json :=
  match k with
  | O => ([], st)
  | S k =>
      let '(client, st) := getClient st in
      let '(clients, st) := getClients k st in
      (client :: clients, st)
  end.

End WithWire.

(** The constructor of [HttpClientImpl]: [threads = parallelism / 16 + 1]
    event loops are started and client [i] is attached to loop
    [i % threads]. *)
Definition client_thread_ratio : Z := 16.

Definition threads (parallelism : Z) : Z :=
  parallelism `quot` client_thread_ratio + 1.

(** The loop of every client, in the order the clients are created. *)
Definition client_loops (parallelism : Z) : list Z :=
  (fun i => i `rem` threads parallelism) <$> seqZ 0 parallelism.

(** The number of clients attached to a loop. *)
Definition clients_on (parallelism loop : Z) : nat :=
  length (filter (fun l => l = loop) (client_loops parallelism)).

End HttpHealth.

(* ===================================================================== *)
(** ** Parameters on the gRPC wire (clients/grpc_internal.cpp)            *)
(* ===================================================================== *)

Module GrpcInternal.
Import Machine.

(** [inference::InferParameter]: the [parameter_choice] oneof. *)
Inductive InferParameter :=
| kBoolParam (b : bool)
| kInt64Param (i : Z)
| kDoubleParam (bits : Z)
| kStringParam (s : string)
| PARAMETER_CHOICE_NOT_SET.

(** The visitor of [mapParametersToProto]: a [Parameter] as an
    [InferParameter]; the [int32_t] alternative goes into the 64-bit
    field. *)
Definition to_proto (value : ModelRepository.ParameterVariant)
  : InferParameter :=
  match value with
  | ModelRepository.PBool b => kBoolParam b
  | ModelRepository.PDouble d => kDoubleParam d
  | ModelRepository.PInt i => kInt64Param i
  | ModelRepository.PString s => kStringParam s
  end.

(** [google::protobuf::Map::insert]: an entry whose key is present is
    left as it is.  The map is listed in insertion order. *)
Definition proto_insert (kv : string * InferParameter)
    (m : list (string * InferParameter)) : list (string * InferParameter) :=
  if decide (kv.1 ∈ m.*1) then m else m ++ [kv].

(** [mapParametersToProto]: the entries of the [std::map], in key order,
    are inserted into the protobuf map. *)
Definition mapParametersToProto
    (parameters : list (string * ModelRepository.ParameterVariant))
    (grpc_parameters : list (string * InferParameter))
  : list (string * InferParameter) :=
  foldl (fun m kv => proto_insert (kv.1, to_proto kv.2) m)
        grpc_parameters parameters.

Section WithParameterMap.
Context {ParameterMap : Type}.
Context (put : string -> ModelRepository.ParameterVariant ->
               ParameterMap -> ParameterMap).

(** [mapProtoToParameters(params, parameters)]; [params] is listed in the
    order in which the protobuf map is iterated. *)
Definition mapProtoToParameters (params : list (string * InferParameter))
    (parameters : ParameterMap) : ParameterMap :=
  foldl (fun parameters kv =>
           match kv.2 with
           | kBoolParam b => put kv.1 (ModelRepository.PBool b) parameters
           | kInt64Param i =>
               put kv.1 (ModelRepository.PInt (wrap_int i)) parameters
           | kDoubleParam d => put kv.1 (ModelRepository.PDouble d) parameters
           | kStringParam s => put kv.1 (ModelRepository.PString s) parameters
           | PARAMETER_CHOICE_NOT_SET => parameters
           end)
        parameters params.

End WithParameterMap.

(** A [Parameter] whose integer alternative is an [int32_t]. *)
Definition int32_valued (value : ModelRepository.ParameterVariant) : Prop :=
  match value with
  | ModelRepository.PInt i => - 2 ^ 31 <= i < 2 ^ 31
  | _ => True
  end.

End GrpcInternal.

(* ===================================================================== *)
(** ** The gRPC server: call objects (servers/grpc_server.cpp)             *)
(* ===================================================================== *)

Module GrpcServer.

(** [CallData::CallStatus]. *)
Inductive CallStatus := Create | Process | Wait | Finish.

(** What a call object does that is visible outside. *)
Inductive Action :=
| WaitForRequest
| AddNewCallData
| HandleRequest
| ResponderFinish (code : string)
| Yield
| Delete.

#[global] Instance Action_eq_dec : EqDecision Action.
Proof. solve_decision. Defined.

(** [CallDataUnary::finish]. *)
Definition finish (code : string) (status : CallStatus)
  : CallStatus * list Action :=
  (Finish, [ResponderFinish code]).

(** [CallData::proceed].  [handler] tells what [handleRequest] does with
    the call before it returns: [Some code] when it calls [finish]
    itself, [None] when it leaves that to a callback.  The result [None]
    is the deleted object. *)
Definition proceed (handler : option string) (status : CallStatus)
  : option CallStatus * list Action :=
  match status with
  | Create => (Some Process, [WaitForRequest])
  | Process =>
      let '(status, finished) :=
        match handler with
        | Some code => finish code status
        | None => (status, [])
        end in
      (Some Wait, [AddNewCallData; HandleRequest] ++ finished)
  | Wait => (Some Wait, [Yield])
  | Finish => (None, [Delete])
  end.

(** What reaches a call object: [proceed] is called (by the constructor
    of the object, and then by [handleRpcs] each time the tag of the
    object comes out of the completion queue), or the callback of the
    request calls [finish]. *)
Inductive Stimulus :=
| Tag
| CallbackFinish (code : string).

(** The life of a call object under a sequence of stimuli, up to its
    deletion: the stimuli behind it are not followed (see
    [reaches_deleted]). *)
Fixpoint life (handler : option string) (status : option CallStatus)
    (stimuli : list Stimulus) : option CallStatus * list Action :=
  match status, stimuli with
  | None, _ => (None, [])
  | Some s, [] => (Some s, [])
  | Some s, Tag :: rest =>
      let '(status, actions) := proceed handler s in
      let '(final, more) := life handler status rest in
      (final, actions ++ more)
  | Some s, CallbackFinish code :: rest =>
      let '(status, actions) := finish code s in
      let '(final, more) := life handler (Some status) rest in
      (final, actions ++ more)
  end.

(** Whether a stimulus reaches the object after it was deleted: in the
    code this is a call on a freed object, which [life] does not follow
    any further. *)
Fixpoint reaches_deleted (handler : option string)
    (status : option CallStatus) (stimuli : list Stimulus) : bool :=
  match status, stimuli with
  | _, [] => false
  | None, _ :: _ => true
  | Some s, Tag :: rest => reaches_deleted handler (proceed handler s).1 rest
  | Some s, CallbackFinish code :: rest =>
      reaches_deleted handler (Some (finish code s).1) rest
  end.

Definition occurrences (a : Action) (actions : list Action) : nat :=
  length (filter (fun x => x = a) actions).

End GrpcServer.

(* ===================================================================== *)
(** ** The InvertVideo worker (workers/invert_video.cpp)                  *)
(* ===================================================================== *)

Module InvertVideo.
Import Machine Core.

(** What the worker does that is visible outside. *)
Inductive Event :=
| RunCallback (callback : nat) (resp : InferenceResponse)
| RunCallbackError (callback : nat) (error : string).

Section WithVideo.
(** OpenCV frames and the helpers that are not among the sources. *)
Context {Frame : Type}.
Context (bitwise_not : Frame -> Frame).
Context (base64_jpg : Frame -> string).    (* imencode(".jpg"), base64Encode *)
Context (constructMessage : string -> string -> string).

(** An opened [cv::VideoCapture]: its frame count (as cast to
    [int32_t]), its frame rate as [std::to_string] prints it, and the
    frames that [cap >> frame] delivers, where [None] is an empty frame.
    After the listed frames every frame is empty. *)
Record Capture := mkCapture {
  frame_count : Z;
  fps : string;
  frames : list (option Frame);
}.

(** The response that carries one message. *)
Definition message_response (id name message : string) : InferenceResponse :=
  mkResponse id "invert_video"
    [mkOutput name [Z.of_nat (String.length message)] DataType.String
              (Buffer.chars message)].

(** [for (int num_frames = 0; num_frames < count; num_frames++)]: an
    empty frame is not counted ([num_frames--; continue;]), any other
    frame is inverted, encoded and sent.  The result is the events and
    whether the loop ends; it does not end when the capture runs out of
    frames before [count] of them were sent. *)
Fixpoint send_frames (callback : nat) (id key : string) (count : Z)
    (num_frames : Z) (remaining : list (option Frame)) : list Event * bool :=
  if decide (num_frames < count) then
    match remaining with
    | [] => ([], false)
    | None :: rest => send_frames callback id key count num_frames rest
    | Some frame :: rest =>
        let encoded :=
          "data:image/jpg;base64," +:+ base64_jpg (bitwise_not frame) in
        let resp :=
          message_response id "image" (constructMessage key encoded) in
        let '(events, ends) :=
          send_frames callback id key count (num_frames + 1) rest in
        (RunCallback callback resp :: events, ends)
    end
  else ([], true).

(** The body of the loop over the inputs of a request: [cap] is what
    opening the path in the input gives ([None] when it cannot be
    opened), [count_parameter] the input's ["count"] parameter when it
    has one. *)
Definition run_input (callback : nat) (id key : string)
    (cap : option Capture) (count_parameter : option Z)
  : list Event * bool :=
  match cap with
  | None => ([RunCallbackError callback "Cannot open video file"], true)
  | Some cap =>
      let count :=
        match count_parameter with
        | Some c => c
        | None => frame_count cap
        end in
      let first :=
        message_response id "key" (constructMessage key (fps cap)) in
      let '(events, ends) :=
        send_frames callback id key count 0 (frames cap) in
      (RunCallback callback first :: events, ends)
  end.

(** The frames that are not empty. *)
Definition pictures (fs : list (option Frame)) : list Frame := omap id fs.

(** The event that sends one picture. *)
Definition picture_event (callback : nat) (id key : string) (frame : Frame)
  : Event :=
  RunCallback callback
    (message_response id "image"
       (constructMessage key
          ("data:image/jpg;base64," +:+ base64_jpg (bitwise_not frame)))).

End WithVideo.
End InvertVideo.

(* ===================================================================== *)
(** ** Model files (core/model_repository.cpp)                            *)
(* ===================================================================== *)

Module ModelFiles.
Import ModelRepository.


End ModelFiles.

(* ===================================================================== *)
(** * Properties                                                          *)
(* ===================================================================== *)

Module MachineFacts.
Import Machine.


Lemma wrap64_small z : 0 <= z < 2 ^ 64 -> wrap64 z = z.
Proof. intros H. unfold wrap64. apply Z.mod_small. exact H. Qed.

Lemma wrap_int_small z : - 2 ^ 31 <= z < 2 ^ 31 -> wrap_int z = z.
Proof. intros H. unfold wrap_int. rewrite Z.mod_small; lia. Qed.


Lemma length_encode_u32 v : length (encode_u32 v) = 4%nat.
Proof. reflexivity. Qed.

Lemma read_encode_u32 v rest :
  0 <= v < 2 ^ 32 -> read_u32 (encode_u32 v ++ rest) = Some v.
Proof.
  intros Hv. unfold encode_u32, read_u32. cbn [app]. f_equal.
  change (2 ^ 8) with 256. change (2 ^ 16) with 65536.
  change (2 ^ 24) with 16777216. change (2 ^ 32) with 4294967296 in Hv.
  Z.div_mod_to_equations. lia.
Qed.

(** The four bytes of a [uint32_t] value give the value back. *)
Lemma combine_bytes v :
  0 <= v < 2 ^ 32 ->
  v mod 256 + 2 ^ 8 * ((v / 2 ^ 8) mod 256)
  + 2 ^ 16 * ((v / 2 ^ 16) mod 256) + 2 ^ 24 * ((v / 2 ^ 24) mod 256) = v.
Proof.
  intros Hv. pose proof (read_encode_u32 v [] Hv) as H.
  unfold encode_u32, read_u32 in H. cbn [app] in H. injection H as H.
  exact H.
Qed.

(** Converting a [uint32_t] to [int] and back keeps the value. *)
Lemma wrap32_wrap_int v : 0 <= v < 2 ^ 32 -> wrap32 (wrap_int v) = v.
Proof.
  intros Hv. unfold wrap32, wrap_int.
  change (2 ^ 31) with 2147483648. change (2 ^ 32) with 4294967296 in *.
  Z.div_mod_to_equations. lia.
Qed.

Lemma write_bytes_inside (region : list byte) pos src :
  (pos + length src <= length region)%nat ->
  write_bytes region pos src
  = Some (take pos region ++ src ++ drop (pos + length src) region).
Proof. intros H. unfold write_bytes. rewrite decide_True by exact H. done. Qed.

Lemma length_write_inside (region : list byte) pos (src : list byte) :
  (pos + length src <= length region)%nat ->
  length (take pos region ++ src ++ drop (pos + length src) region)
  = length region.
Proof.
  intros H. rewrite !length_app, length_take, length_drop. lia.
Qed.

End MachineFacts.

Module BatchFacts.
Import Core Batch.

(** Each call changes the three request-indexed vectors by what its kind
    says, so their lengths after a history are the initial lengths plus
    the number of calls of the matching kind. *)
Lemma run_calls_lengths cs : forall b,
  length (requests_ (run_calls b cs))
    = (length (requests_ b) + count is_addRequest cs)%nat
  /\ length (traces_ (run_calls b cs))
    = (length (traces_ b) + count is_addTrace cs)%nat
  /\ length (start_times_ (run_calls b cs))
    = (length (start_times_ b) + count is_addTime cs)%nat.
Proof.
  unfold run_calls, count.
  induction cs as [|c cs IH]; intros b; cbn [foldl].
  - cbn. lia.
  - destruct (IH (step b c)) as (Hr & Ht & Hs).
    rewrite Hr, Ht, Hs.
    destruct c; cbn; rewrite ?length_app; cbn; lia.
Qed.

Lemma size_of_lengths opts b :
  (AMDINFER_ENABLE_TRACING opts = true ->
   length (requests_ b) = length (traces_ b)) ->
  (AMDINFER_ENABLE_METRICS opts = true ->
   length (requests_ b) = length (start_times_ b)) ->
  size opts b = Some (length (requests_ b)).
Proof.
  intros Ht Hm. unfold size.
  destruct (AMDINFER_ENABLE_TRACING opts); cbn [andb].
  - rewrite bool_decide_eq_true_2 by auto. cbn [negb].
    destruct (AMDINFER_ENABLE_METRICS opts); cbn [andb]; [|reflexivity].
    rewrite bool_decide_eq_true_2 by auto. reflexivity.
  - destruct (AMDINFER_ENABLE_METRICS opts); cbn [andb]; [|reflexivity].
    rewrite bool_decide_eq_true_2 by auto. reflexivity.
Qed.

(** C8. On a batch built by any history of calls in which, when tracing
    is enabled, [addTrace] was called as often as [addRequest], and, when
    metrics are enabled, [addTime] was called as often as [addRequest],
    the assertions of [Batch::size] hold and it returns the number of
    requests added. *)
Theorem size_counts_added_requests opts cs :
  (AMDINFER_ENABLE_TRACING opts = true ->
   count is_addTrace cs = count is_addRequest cs) ->
  (AMDINFER_ENABLE_METRICS opts = true ->
   count is_addTime cs = count is_addRequest cs) ->
  size opts (run_calls empty_batch cs) = Some (count is_addRequest cs).
Proof.
  intros Ht Hm.
  destruct (run_calls_lengths cs empty_batch) as (Hr & Htr & Hst).
  cbn in Hr, Htr, Hst.
  rewrite size_of_lengths; [f_equal; lia | |]; intros E.
  - rewrite Hr, Htr. symmetry. auto.
  - rewrite Hr, Hst. symmetry. auto.
Qed.

(** Calls other than [setBuffers] and the two moving getters leave both
    buffer sets alone. *)
Lemma run_calls_buffers cs : forall b,
  Forall (fun c => touches_buffers c = false) cs ->
  input_buffers_ (run_calls b cs) = input_buffers_ b
  /\ output_buffers_ (run_calls b cs) = output_buffers_ b.
Proof.
  unfold run_calls.
  induction cs as [|c cs IH]; intros b Hcs; cbn [foldl]; [done|].
  inversion Hcs as [|? ? Hc Hrest]; subst.
  destruct (IH (step b c) Hrest) as [-> ->].
  destruct c; cbn in Hc |- *; done.
Qed.

(** C9. [getInputBuffers] and [getOutputBuffers] are moving getters.
    Take a batch on which [setBuffers(ins, outs)] was called, followed by
    any calls that do not concern the buffers.  [getInputBuffers] returns
    exactly [ins] and leaves the batch with an empty input buffer set
    ([getInputSize] is 0), while requests, output buffers, traces and
    start times are as before; symmetrically for [getOutputBuffers]. *)
Theorem moving_getters b0 ins outs cs :
  Forall (fun c => touches_buffers c = false) cs ->
  let b := run_calls (setBuffers ins outs b0) cs in
  (let '(returned, b') := getInputBuffers b in
   returned = ins
   /\ getInputSize b' = 0%nat /\ input_buffers_ b' = []
   /\ requests_ b' = requests_ b
   /\ output_buffers_ b' = output_buffers_ b
   /\ traces_ b' = traces_ b
   /\ start_times_ b' = start_times_ b)
  /\
  (let '(returned, b') := getOutputBuffers b in
   returned = outs
   /\ getOutputSize b' = 0%nat /\ output_buffers_ b' = []
   /\ requests_ b' = requests_ b
   /\ input_buffers_ b' = input_buffers_ b
   /\ traces_ b' = traces_ b
   /\ start_times_ b' = start_times_ b).
Proof.
  intros Hcs b.
  destruct (run_calls_buffers cs (setBuffers ins outs b0) Hcs) as [Hin Hout].
  fold b in Hin, Hout. cbn in Hin, Hout.
  unfold getInputBuffers, getOutputBuffers, getInputSize, getOutputSize.
  cbn. rewrite Hin, Hout. repeat split.
Qed.

(** An instance: buffers 1 and 2 (inputs) and 3 (output) are installed, a
    request and its trace are added, then the inputs are moved out. *)
Lemma moving_getters_witness :
  Forall (fun c => touches_buffers c = false)
         [CallAddRequest (mkRequest "r" [] [] 0); CallAddTrace 5%nat]
  /\ (getInputBuffers
        (run_calls (setBuffers [1; 2] [3] empty_batch)%nat
           [CallAddRequest (mkRequest "r" [] [] 0); CallAddTrace 5%nat])).1
     = [1; 2]%nat.
Proof.
  assert (Hcs : Forall (fun c => touches_buffers c = false)
                  [CallAddRequest (mkRequest "r" [] [] 0); CallAddTrace 5%nat])
    by (repeat constructor).
  split; [exact Hcs|].
  pose proof (moving_getters empty_batch [1; 2]%nat [3]%nat _ Hcs) as [H _].
  destruct (getInputBuffers _) as [returned b'] in H |- *.
  cbn [fst]. apply H.
Defined.

(** An instance of [size_counts_added_requests] with tracing and metrics
    enabled: two requests, each with its trace and start time. *)
Lemma size_counts_added_requests_witness :
  size (mkOptions true true)
       (run_calls empty_batch
          [CallAddRequest (mkRequest "r" [] [] 0);
           CallAddTrace 1%nat; CallAddTime 10;
           CallAddRequest (mkRequest "s" [] [] 1);
           CallAddTrace 2%nat; CallAddTime 11])
  = Some 2%nat.
Proof.
  apply (size_counts_added_requests (mkOptions true true)
           [CallAddRequest (mkRequest "r" [] [] 0);
            CallAddTrace 1%nat; CallAddTime 10;
            CallAddRequest (mkRequest "s" [] [] 1);
            CallAddTrace 2%nat; CallAddTime 11]);
    reflexivity.
Defined.

End BatchFacts.

Module EchoFacts.
Import Machine Core Echo MachineFacts.

Lemma read_u32_is_Some region :
  (4 <= length region)%nat -> is_Some (read_u32 region).
Proof.
  destruct region as [|b0 [|b1 [|b2 [|b3 rest]]]]; cbn; intros H;
    try lia. eauto.
Qed.

(** The output built for input [i] when no name is requested for it. *)
Lemma echo_output_unnamed inputs outputs i input first v :
  inputs !! i = Some input ->
  read_u32 (in_data input) = Some v ->
  inputs !! 0%nat = Some first ->
  (forall o, outputs !! i = Some o -> ro_name o = ""%string) ->
  echo_output inputs outputs i
  = Some (mkOutput (in_name first) [1] DataType.Uint32
                   (encode_u32 (wrap32 (v + 1)))).
Proof.
  intros Hi Hv H0 Hnames. unfold echo_output.
  rewrite Hi. cbn [mbind option_bind]. rewrite Hv. cbn [mbind option_bind].
  assert (Hn : requested_name outputs i = ""%string).
  { unfold requested_name.
    destruct (outputs !! i) as [o|]; [apply Hnames|]; reflexivity. }
  rewrite Hn. rewrite decide_True by reflexivity.
  rewrite H0. reflexivity.
Qed.

(** The output built for input [i] when a name is requested for it. *)
Lemma echo_output_named inputs outputs i input o v :
  inputs !! i = Some input ->
  read_u32 (in_data input) = Some v ->
  outputs !! i = Some o ->
  ro_name o <> ""%string ->
  echo_output inputs outputs i
  = Some (mkOutput (ro_name o) [1] DataType.Uint32
                   (encode_u32 (wrap32 (v + 1)))).
Proof.
  intros Hi Hv Ho Hname. unfold echo_output.
  rewrite Hi. cbn [mbind option_bind]. rewrite Hv. cbn [mbind option_bind].
  unfold requested_name.
  rewrite Ho. rewrite decide_False by exact Hname. reflexivity.
Qed.

(** A batch whose observation vectors match its requests is processed
    request by request. *)
Lemma run_batch_single opts batch req resp :
  Batch.requests_ batch = [req] ->
  (AMDINFER_ENABLE_TRACING opts = true ->
   length (Batch.traces_ batch) = 1%nat) ->
  (AMDINFER_ENABLE_METRICS opts = true ->
   length (Batch.start_times_ batch) = 1%nat) ->
  respond req = Some resp ->
  run_batch opts batch = Some [RunCallbackOnce (req_callback req) resp].
Proof.
  intros Hreq Ht Hm Hresp. unfold run_batch.
  rewrite (BatchFacts.size_of_lengths opts batch).
  2:{ intros E. rewrite Hreq, (Ht E). reflexivity. }
  2:{ intros E. rewrite Hreq, (Hm E). reflexivity. }
  rewrite Hreq. cbn [length mbind option_bind seq mapM].
  unfold run_request, Batch.getRequest, Batch.getTrace, Batch.getTime.
  rewrite Hreq. cbn [lookup list_lookup mbind option_bind].
  rewrite Hresp.
  destruct (AMDINFER_ENABLE_TRACING opts).
  - destruct (Batch.traces_ batch) as [|tr trs];
      [specialize (Ht eq_refl); discriminate|].
    destruct (AMDINFER_ENABLE_METRICS opts); [|reflexivity].
    destruct (Batch.start_times_ batch) as [|ts tss];
      [specialize (Hm eq_refl); discriminate|]. reflexivity.
  - destruct (AMDINFER_ENABLE_METRICS opts); [|reflexivity].
    destruct (Batch.start_times_ batch) as [|ts tss];
      [specialize (Hm eq_refl); discriminate|]. reflexivity.
Qed.

(** Every callback the worker runs is the callback of a request of some
    dequeued batch, run on the response [respond] builds for it. *)
Lemma doRun_events opts queue : forall evs ev,
  doRun opts queue = Some evs -> ev ∈ evs ->
  exists batch req resp,
    Some batch ∈ queue /\ req ∈ Batch.requests_ batch
    /\ respond req = Some resp
    /\ ev = RunCallbackOnce (req_callback req) resp.
Proof.
  induction queue as [|[batch|] rest IH]; intros evs ev Hrun Hev;
    cbn [doRun] in Hrun.
  - injection Hrun as <-. inversion Hev.
  - destruct (run_batch opts batch) as [evs1|] eqn:E1; [|discriminate].
    cbn [mbind option_bind] in Hrun.
    destruct (doRun opts rest) as [evs2|] eqn:E2; [|discriminate].
    cbn [mbind option_bind] in Hrun. injection Hrun as <-.
    apply elem_of_app in Hev as [Hev|Hev].
    + unfold run_batch in E1.
      destruct (Batch.size opts batch) as [n|]; [|discriminate].
      cbn [mbind option_bind] in E1.
      apply mapM_Some_1 in E1.
      apply list_elem_of_lookup in Hev as [k Hk].
      destruct (Forall2_lookup_r _ _ _ _ _ E1 Hk) as (j & _ & Hj).
      unfold run_request in Hj.
      destruct (Batch.getRequest batch j) as [req|] eqn:Hreq; [|discriminate].
      cbn [mbind option_bind] in Hj.
      destruct (if AMDINFER_ENABLE_TRACING opts then _ else _);
        [|discriminate].
      cbn [mbind option_bind] in Hj.
      destruct (respond req) as [resp|] eqn:Hresp; [|discriminate].
      cbn [mbind option_bind] in Hj.
      destruct (if AMDINFER_ENABLE_METRICS opts then _ else _);
        [|discriminate].
      cbn [mbind option_bind] in Hj. injection Hj as <-.
      exists batch, req, resp. repeat split; try done.
      * left.
      * apply list_elem_of_lookup. exists j. exact Hreq.
    + destruct (IH _ _ eq_refl Hev) as (b & req & resp & Hb & Hrest).
      exists b, req, resp. split; [right; exact Hb | exact Hrest].
  - injection Hrun as <-. inversion Hev.
Qed.

(** C1 (amended).  A batch holding one request with a single uint32
    input tensor of value [v] makes the Echo worker run that request's
    callback once, with a response that has exactly one output tensor of
    datatype UINT32 and shape [1] whose value is [v + 1] modulo 2^32.  The
    output carries the name of the input tensor when no name is requested
    for it (no requested outputs, or an empty first name), and the
    requested name otherwise. *)
Theorem echo_single_input opts batch rest id name shape more v outputs cb :
  0 <= v < 2 ^ 32 ->
  Batch.requests_ batch
  = [mkRequest id [mkInput name shape DataType.Uint32 (encode_u32 v ++ more)]
               outputs cb] ->
  (AMDINFER_ENABLE_TRACING opts = true ->
   length (Batch.traces_ batch) = 1%nat) ->
  (AMDINFER_ENABLE_METRICS opts = true ->
   length (Batch.start_times_ batch) = 1%nat) ->
  doRun opts (Some batch :: None :: rest)
  = Some [RunCallbackOnce cb
            (mkResponse id "echo"
               [mkOutput (if decide (requested_name outputs 0 = ""%string)
                          then name else requested_name outputs 0)
                         [1] DataType.Uint32
                         (encode_u32 ((v + 1) mod 2 ^ 32))])]
  /\ read_u32 (encode_u32 ((v + 1) mod 2 ^ 32)) = Some ((v + 1) mod 2 ^ 32).
Proof.
  intros Hv Hreq Ht Hm. split.
  - assert (Hresp :
      respond (mkRequest id [mkInput name shape DataType.Uint32
                                     (encode_u32 v ++ more)] outputs cb)
      = Some (mkResponse id "echo"
                [mkOutput (if decide (requested_name outputs 0 = ""%string)
                           then name else requested_name outputs 0)
                          [1] DataType.Uint32
                          (encode_u32 ((v + 1) mod 2 ^ 32))])).
    { unfold respond. cbn [req_inputs req_outputs req_id length seq mapM].
      unfold echo_output.
      cbn [lookup list_lookup mbind option_bind in_data in_name fmap
           option_fmap option_map].
      rewrite (read_encode_u32 v more Hv). cbn [mbind option_bind].
      destruct (decide (requested_name outputs 0 = ""%string)); reflexivity. }
    cbn [doRun].
    rewrite (run_batch_single opts batch _ _ Hreq Ht Hm Hresp).
    reflexivity.
  - rewrite <- (app_nil_r (encode_u32 _)). apply read_encode_u32.
    apply Z.mod_pos_bound. lia.
Qed.

(** An instance: scenario S1 of the specification (name "in", value 41,
    no requested outputs), in a build with tracing and metrics. *)
Lemma echo_single_input_witness :
  doRun (mkOptions true true)
        [Some (Batch.mk [mkRequest "id" [mkInput "in" [1] DataType.Uint32
                                           (encode_u32 41)] [] 7]
                        [] [] [1%nat] [100]);
         None]
  = Some [RunCallbackOnce 7
            (mkResponse "id" "echo"
               [mkOutput "in" [1] DataType.Uint32 (encode_u32 42)])].
Proof.
  apply (echo_single_input (mkOptions true true)
           (Batch.mk [mkRequest "id" [mkInput "in" [1] DataType.Uint32
                                        (encode_u32 41)] [] 7]
                     [] [] [1%nat] [100])
           [] "id" "in" [1] [] 41 [] 7);
    [lia | reflexivity | reflexivity | reflexivity].
Defined.

(** C1 as stated fails on the name: a request with a single uint32 input
    named "in" that also names a requested output "out" gets its output
    named "out". *)
Lemma echo_single_input_counterexample :
  exists output,
    doRun (mkOptions false false)
          [Some (Batch.mk
                   [mkRequest "id"
                      [mkInput "in" [1] DataType.Uint32 (encode_u32 41)]
                      [mkRequestedOutput "out"] 7]
                   [] [] [] []);
           None]
    = Some [RunCallbackOnce 7 (mkResponse "id" "echo" [output])]
    /\ out_name output = "out"%string
    /\ out_name output <> "in"%string.
Proof.
  eexists. split; [reflexivity|]. split; [reflexivity|]. discriminate.
Qed.

(** The increment is [uint32_t] arithmetic: the largest value wraps to 0. *)
Lemma echo_wraps_at_uint32_max :
  respond (mkRequest "id" [mkInput "in" [1] DataType.Uint32
                             (encode_u32 4294967295)] [] 7)
  = Some (mkResponse "id" "echo"
            [mkOutput "in" [1] DataType.Uint32 (encode_u32 0)]).
Proof. reflexivity. Qed.

(** C10.  A request with two or more input tensors whose requested
    outputs are absent or have empty names gets one output per input;
    output [i] holds the incremented value of input [i], and every output
    is named after the first input tensor, [inputs[0]], not after the
    input it was computed from. *)
Theorem echo_outputs_named_after_first_input req first :
  (2 <= length (req_inputs req))%nat ->
  req_inputs req !! 0%nat = Some first ->
  (forall i o, req_outputs req !! i = Some o -> ro_name o = ""%string) ->
  Forall (fun input => (4 <= length (in_data input))%nat) (req_inputs req) ->
  exists resp,
    respond req = Some resp
    /\ length (resp_outputs resp) = length (req_inputs req)
    /\ forall i output, resp_outputs resp !! i = Some output ->
         out_name output = in_name first
         /\ exists input v,
              req_inputs req !! i = Some input
              /\ read_u32 (in_data input) = Some v
              /\ out_data output = encode_u32 (wrap32 (v + 1)).
Proof.
  intros _ Hfirst Hnames Hdata. unfold respond.
  assert (Hall : Forall (fun i => exists input v,
            req_inputs req !! i = Some input
            /\ read_u32 (in_data input) = Some v
            /\ echo_output (req_inputs req) (req_outputs req) i
               = Some (mkOutput (in_name first) [1] DataType.Uint32
                                (encode_u32 (wrap32 (v + 1)))))
            (seq 0 (length (req_inputs req)))).
  { apply Forall_forall. intros i Hi.
    apply elem_of_seq in Hi as [_ Hi]. cbn in Hi.
    destruct (lookup_lt_is_Some_2 (req_inputs req) i Hi) as [input Hinput].
    pose proof (Forall_lookup_1 _ _ _ _ Hdata Hinput) as Hlen.
    destruct (read_u32_is_Some _ Hlen) as [v Hv].
    exists input, v. split; [exact Hinput|]. split; [exact Hv|].
    eapply echo_output_unnamed; eauto. }
  destruct (mapM (echo_output (req_inputs req) (req_outputs req))
                 (seq 0 (length (req_inputs req)))) as [outs|] eqn:E.
  - exists (mkResponse (req_id req) "echo" outs).
    cbn [mbind option_bind resp_outputs].
    apply mapM_Some_1 in E. split; [reflexivity|]. split.
    + rewrite <- (Forall2_length _ _ _ E). apply length_seq.
    + intros i output Hout.
      destruct (Forall2_lookup_r _ _ _ _ _ E Hout) as (j & Hj & Hfj).
      pose proof (list_elem_of_lookup_2 _ _ _ Hj) as Hin.
      apply lookup_seq in Hj as [-> _]. cbn [Nat.add] in *.
      destruct (proj1 (Forall_forall _ _) Hall i Hin)
        as (input & v & Hinput & Hv & Hecho).
      rewrite Hecho in Hfj. injection Hfj as <-.
      split; [reflexivity|]. exists input, v. auto.
  - exfalso.
    assert (Hs : is_Some (mapM (echo_output (req_inputs req) (req_outputs req))
                               (seq 0 (length (req_inputs req))))).
    { apply mapM_is_Some. eapply Forall_impl; [exact Hall|].
      intros i (input & v & _ & _ & Hecho). cbn. rewrite Hecho. eauto. }
    rewrite E in Hs. destruct Hs as [? Hs]. discriminate.
Qed.

(** An instance: two inputs "a" and "b", no requested outputs; both
    outputs are named "a". *)
Lemma echo_outputs_named_after_first_input_witness :
  exists resp,
    respond (mkRequest "id"
               [mkInput "a" [1] DataType.Uint32 (encode_u32 1);
                mkInput "b" [1] DataType.Uint32 (encode_u32 2)] [] 7)
    = Some resp
    /\ length (resp_outputs resp) = 2%nat
    /\ forall i output, resp_outputs resp !! i = Some output ->
         out_name output = "a"%string
         /\ exists input v,
              [mkInput "a" [1] DataType.Uint32 (encode_u32 1);
               mkInput "b" [1] DataType.Uint32 (encode_u32 2)] !! i
              = Some input
              /\ read_u32 (in_data input) = Some v
              /\ out_data output = encode_u32 (wrap32 (v + 1)).
Proof.
  apply (echo_outputs_named_after_first_input
           (mkRequest "id"
              [mkInput "a" [1] DataType.Uint32 (encode_u32 1);
               mkInput "b" [1] DataType.Uint32 (encode_u32 2)] [] 7)
           (mkInput "a" [1] DataType.Uint32 (encode_u32 1))).
  - cbn. lia.
  - reflexivity.
  - intros i o H. destruct i; discriminate.
  - repeat constructor.
Defined.

End EchoFacts.

Module EchoModelFacts.
Import Machine Core EchoModel MachineFacts.

(** The [echo] model on a batch of one request with one uint32 input of
    value [v]: the first four bytes of the corresponding tensor of the
    new request become [v + 1] modulo 2^32, and the new request takes
    over the callback. *)
Lemma run_single_input batch new_batch id name shape more v outputs cb
    nid nname nshape ndt nmore nouts ncb b0 b1 b2 b3 :
  0 <= v < 2 ^ 32 ->
  Batch.requests_ batch
  = [mkRequest id [mkInput name shape DataType.Uint32 (encode_u32 v ++ more)]
               outputs cb] ->
  Batch.requests_ new_batch
  = [mkRequest nid [mkInput nname nshape ndt (b0 :: b1 :: b2 :: b3 :: nmore)]
               nouts ncb] ->
  run (mkOptions false false) batch new_batch
  = Some (Batch.mk
            [mkRequest nid
               [mkInput nname nshape ndt
                        (encode_u32 ((v + 1) mod 2 ^ 32) ++ nmore)]
               nouts cb]
            (Batch.input_buffers_ new_batch)
            (Batch.output_buffers_ new_batch)
            (Batch.traces_ new_batch) (Batch.start_times_ new_batch)).
Proof.
  intros Hv Hreq Hnew. unfold run, Batch.size.
  cbn [AMDINFER_ENABLE_TRACING AMDINFER_ENABLE_METRICS andb].
  rewrite Hreq. cbn [length mbind option_bind seq foldl].
  unfold run_request, Batch.getRequest.
  cbn [AMDINFER_ENABLE_TRACING AMDINFER_ENABLE_METRICS].
  rewrite Hreq, Hnew.
  cbn [lookup list_lookup mbind option_bind req_inputs].
  unfold run_inputs. cbn [length seq foldl mbind option_bind].
  unfold run_input.
  cbn [lookup list_lookup mbind option_bind in_data].
  rewrite (read_encode_u32 v more Hv).
  cbn [mbind option_bind]. reflexivity.
Qed.

End EchoModelFacts.

Module EchoMultiFacts.
Import Machine Core EchoMulti MachineFacts.

(** C3.  Scenario S3: for the two uint32 inputs [10] and [20, 30], the
    [echo_multi] model fills the three declared outputs, of shapes [1],
    [4] and [3], with [10], [20, 30, 10, 20] and [30, 10, 20]: the
    concatenated inputs replayed cyclically across the outputs in order. *)
Theorem echo_multi_fan_out opts :
  run opts
      (Batch.mk [mkRequest "id"
                   [mkInput "input0" [1] DataType.Uint32 (words [10]);
                    mkInput "input1" [2] DataType.Uint32 (words [20; 30])]
                   [] 7]
                [] [] [1%nat] [100])
      (Batch.mk [mkRequest "" (allocate getOutputs) [] 0] [] [] [] [])
  = Some (Batch.mk
            [mkRequest ""
               [mkInput "output0" [1] DataType.Uint32 (words [10]);
                mkInput "output1" [4] DataType.Uint32 (words [20; 30; 10; 20]);
                mkInput "output2" [3] DataType.Uint32 (words [30; 10; 20])]
               [] 7]
            [] []
            (if AMDINFER_ENABLE_TRACING opts then [1%nat] else [])
            (if AMDINFER_ENABLE_METRICS opts then [100] else [])).
Proof. destruct opts as [[] []]; vm_compute; reflexivity. Qed.

(** The same replay for arbitrary element values [a], [b], [c]: the
    outputs are [a], [b, c, a, b] and [c, a, b]. *)
Lemma echo_multi_cycles a b c :
  0 <= a < 2 ^ 32 -> 0 <= b < 2 ^ 32 -> 0 <= c < 2 ^ 32 ->
  run (mkOptions false false)
      (Batch.mk [mkRequest "id"
                   [mkInput "input0" [1] DataType.Uint32 (words [a]);
                    mkInput "input1" [2] DataType.Uint32 (words [b; c])]
                   [] 7]
                [] [] [] [])
      (Batch.mk [mkRequest "" (allocate getOutputs) [] 0] [] [] [] [])
  = Some (Batch.mk
            [mkRequest ""
               [mkInput "output0" [1] DataType.Uint32 (words [a]);
                mkInput "output1" [4] DataType.Uint32 (words [b; c; a; b]);
                mkInput "output2" [3] DataType.Uint32 (words [c; a; b])]
               [] 7]
            [] [] [] []).
Proof.
  intros Ha Hb Hc.
  let x := eval vm_compute in (allocate getOutputs) in
    change (allocate getOutputs) with x.
  cbn -[Z.modulo Z.div Z.pow wrap32 wrap_int guard].
  case_guard; [|done].
  cbn -[Z.modulo Z.div Z.pow wrap32 wrap_int].
  rewrite !combine_bytes by assumption.
  cbn -[Z.modulo Z.div Z.pow wrap32 wrap_int].
  rewrite !wrap32_wrap_int by assumption.
  repeat (rewrite write_bytes_inside by (cbn; lia);
          cbn -[Z.modulo Z.div Z.pow wrap32 wrap_int];
          rewrite ?wrap32_wrap_int by assumption).
  reflexivity.
Qed.

End EchoMultiFacts.

Module ClientFacts.
Import Machine Client MachineFacts.

Section WithClient.
Context {Request Response : Type}.
Context (response_to : nat -> string -> Request -> Response).

(** A submission loop over a range inside the vector submits exactly the
    requests of that range, in order. *)
Lemma submit_range_spec model (requests : list Request) (from k : nat) qu lg :
  (from + k <= length requests)%nat ->
  submit_range model requests (Z.of_nat from) (Z.of_nat from + Z.of_nat k)
               (qu, lg)
  = Some (qu ++ futures_of model lg (take k (drop from requests)),
          lg ++ entries_of model (take k (drop from requests))).
Proof.
  unfold submit_range.
  replace (Z.of_nat from + Z.of_nat k - Z.of_nat from) with (Z.of_nat k) by lia.
  induction k as [|k IH]; intros Hk.
  - cbn. unfold futures_of, entries_of. cbn. rewrite !app_nil_r. reflexivity.
  - rewrite seqZ_S, foldl_app. cbn [foldl]. rewrite IH by lia.
    cbn [mbind option_bind].
    replace (Z.to_nat (Z.of_nat from + Z.of_nat k)) with (from + k)%nat by lia.
    destruct (lookup_lt_is_Some_2 requests (from + k)%nat ltac:(lia))
      as [r Hr].
    rewrite Hr. cbn [mbind option_bind]. unfold modelInferAsync.
    assert (Hsub : take (S k) (drop from requests)
                   = take k (drop from requests) ++ [r]).
    { apply take_S_r. rewrite lookup_drop. exact Hr. }
    rewrite Hsub. unfold futures_of, entries_of.
    rewrite imap_app, fmap_app. cbn [imap fmap list_fmap].
    rewrite !length_app, length_fmap, length_take, length_drop.
    rewrite <- !(assoc_L app).
    rewrite (Nat.min_l k) by lia.
    replace (length lg + (k + 0))%nat with (length lg + k)%nat by lia.
    reflexivity.
Qed.

(** Awaiting [k] futures of a queue that holds at least [k]. *)
Lemma collect_spec (k : nat) : forall (qu : list (@Future Request)) rs,
  (k <= length qu)%nat ->
  collect response_to (Z.of_nat k) (qu, rs)
  = Some (drop k qu, rs ++ (get response_to <$> take k qu)).
Proof.
  unfold collect. rewrite Nat2Z.id.
  induction k as [|k IH]; intros qu rs Hk.
  - cbn. rewrite app_nil_r. reflexivity.
  - cbn [Nat.iter nat_rect]. change (nat_rect _ _ _ k) with
      (Nat.iter k (fun acc => s ← acc; collect_one response_to s)
                (Some (qu, rs))).
    rewrite IH by lia. cbn [mbind option_bind]. unfold collect_one.
    cbn [fst snd].
    destruct (lookup_lt_is_Some_2 qu k ltac:(lia)) as [fut Hfut].
    rewrite (drop_S _ _ _ Hfut), (take_S_r _ _ _ Hfut), fmap_app.
    rewrite (assoc_L app). reflexivity.
Qed.







(** C2 fails on the code.  With three requests and a batch size of 1 the
    first window submits and awaits request 0; the second window submits
    nothing, because its loop runs [i] from [start_index = 1] while
    [i < batch_size = 1], and then takes [front()] of the empty queue.
    The call has undefined behaviour instead of returning three
    responses. *)
Theorem batched_second_window_is_undefined model (r0 r1 r2 : Request)
    log0 fuel :
  inferAsyncOrderedBatched response_to (S (S fuel)) model [r0; r1; r2] 1 log0
  = Undefined
  /\ inferAsyncOrderedBatched response_to (S (S fuel)) model [r0; r1; r2] 1
                              log0
     <> Returns (ordered_result response_to model [r0; r1; r2] log0).
Proof. split; [reflexivity | discriminate]. Qed.

(** What the claim promises at that input, for comparison. *)
Lemma ordered_result_three model (r0 r1 r2 : Request) :
  ordered_result response_to model [r0; r1; r2] []
  = ([response_to 0%nat model r0; response_to 1%nat model r1;
      response_to 2%nat model r2],
     [(model, r0); (model, r1); (model, r2)]).
Proof. reflexivity. Qed.

(** [inferAsyncOrdered], which has no windows, satisfies the same
    property for every list of requests. *)
Lemma inferAsyncOrdered_ordered model (requests : list Request) log0 :
  inferAsyncOrdered response_to model requests log0
  = Returns (ordered_result response_to model requests log0).
Proof.
  unfold inferAsyncOrdered.
  pose proof (submit_range_spec model requests 0 (length requests) [] log0
                ltac:(lia)) as Hs.
  change (Z.of_nat 0) with 0 in Hs. rewrite Z.add_0_l, drop_0 in Hs. rewrite Hs.
  cbn [app]. rewrite take_ge by lia.
  rewrite collect_spec.
  2:{ unfold futures_of. rewrite length_imap. lia. }
  rewrite take_ge.
  2:{ unfold futures_of. rewrite length_imap. lia. }
  cbn [app]. unfold ordered_result, futures_of, entries_of.
  rewrite fmap_imap. reflexivity.
Qed.

End WithClient.
End ClientFacts.

Module HttpClientFacts.
Import Core HttpClient.

Section WithWire.
Context {Json : Type}.
Context (mapRequestToJson : InferenceRequest -> Json).
Context (mapJsonToResponse : Json -> InferenceResponse).
Context (sendRequest : @HttpRequest Json -> ReqResult * @HttpResponse Json).

(** C4.  A request with no inputs is refused by the HTTP client's
    [modelInfer] and [modelInferAsync] with [invalid_argument] when it is
    submitted: the exception comes from [createInferenceRequest], before
    a pooled client is picked and before anything is handed to
    [sendRequest].  The client is left as it was; in particular nothing
    was put on the wire, so the server never sees the request and cannot
    place it in a batch. *)
Theorem empty_inputs_rejected_at_submission model request st :
  req_inputs request = [] ->
  modelInfer mapRequestToJson mapJsonToResponse sendRequest model request st
  = (Throws (invalid_argument "The request's inputs cannot be empty"), st)
  /\ modelInferAsync mapRequestToJson mapJsonToResponse sendRequest
                     model request st
  = (Throws (invalid_argument "The request's inputs cannot be empty"), st)
  /\ sent (modelInfer mapRequestToJson mapJsonToResponse sendRequest
                      model request st).2 = sent st
  /\ sent (modelInferAsync mapRequestToJson mapJsonToResponse sendRequest
                           model request st).2 = sent st.
Proof.
  intros Hempty.
  unfold modelInfer, modelInferAsync, createInferenceRequest.
  rewrite Hempty. rewrite bool_decide_eq_true_2 by reflexivity.
  repeat split.
Qed.

(** With at least one input, both calls put exactly one request on the
    wire: the refusal above is the only case that sends nothing. *)
Lemma nonempty_inputs_sent model request st :
  req_inputs request <> [] ->
  length (sent (modelInfer mapRequestToJson mapJsonToResponse sendRequest
                           model request st).2)
  = S (length (sent st))
  /\ length (sent (modelInferAsync mapRequestToJson mapJsonToResponse
                                   sendRequest model request st).2)
     = S (length (sent st)).
Proof.
  intros Hne.
  unfold modelInfer, modelInferAsync, createInferenceRequest.
  rewrite bool_decide_eq_false_2 by exact Hne.
  cbn [getClient send]. split.
  - destruct (sendRequest _) as [result response].
    destruct (checkError result); [|cbn; rewrite length_app; cbn; lia].
    destruct (decide _); cbn; rewrite length_app; cbn; lia.
  - cbn. rewrite length_app. cbn. lia.
Qed.

End WithWire.

(** An instance: a request without inputs, a pool of 32 clients and a
    server that would answer 200 to anything. *)
Lemma empty_inputs_rejected_at_submission_witness :
  req_inputs (mkRequest "id" [] [] 0) = []
  /\ modelInfer (Json := unit) (fun _ => ())
                (fun _ => mkResponse "" "" [])
                (fun _ => (Ok, mkHttpResponse 200 "" ()))
                "echo" (mkRequest "id" [] [] 0) (mkState [] 0 32 [])
     = (Throws (invalid_argument "The request's inputs cannot be empty"),
        mkState [] 0 32 []).
Proof.
  split; [reflexivity|].
  apply (empty_inputs_rejected_at_submission (Json := unit) (fun _ => ())
           (fun _ => mkResponse "" "" [])
           (fun _ => (Ok, mkHttpResponse 200 "" ()))
           "echo" (mkRequest "id" [] [] 0) (mkState [] 0 32 []) eq_refl).
Defined.

End HttpClientFacts.

Module ModelRepositoryFacts.
Import Machine ModelRepository.












(** The same instance, evaluated. *)
Lemma parseModel_onnx_evaluated :
  parseModel log_put
    (mkFileSystem (fun _ => true)
       (fun _ => Parsed (mkConfig "onnx_onnxv1" [] []
                           [("batch_size"%string, kInt64Param 4)])))
    "repo" "resnet" []
  = Done [("worker"%string, PString "migraphx");
          ("model"%string, PString "repo/resnet/1/saved_model.onnx");
          ("batch_size"%string, PInt 4)].
Proof. reflexivity. Qed.

(** The table is a function of the platform but not one to one: two
    platforms share the worker [migraphx]. *)
Lemma worker_of_platform_not_injective :
  worker_of_platform "onnx_onnxv1" = worker_of_platform "migraphx_mxr"
  /\ "onnx_onnxv1"%string <> "migraphx_mxr"%string.
Proof. split; [reflexivity | discriminate]. Qed.

(** In the [tensorflow_graphdef] branch a tensor without dimensions stops
    [parseModel] at [shape.at(0)], before the worker is put. *)
Lemma parseModel_tensorflow_empty_shape :
  parseModel log_put
    (mkFileSystem (fun _ => true)
       (fun _ => Parsed (mkConfig "tensorflow_graphdef"
                           [mkConfigTensor "input" []] [] [])))
    "repo" "resnet" []
  = Fails check_failed.
Proof. reflexivity. Qed.

End ModelRepositoryFacts.

Module BufferFacts.
Import Machine Buffer MachineFacts.

Lemma length_chars s : length (chars s) = String.length s.
Proof.
  unfold chars. rewrite length_fmap.
  induction s as [|c s IH]; cbn; [reflexivity | f_equal; exact IH].
Qed.

(** C6.  Inside the buffer, [write] of a string stores its characters
    from [offset] on, a null terminator right behind them, and returns
    [offset + length + 1]; [write] of a value of any other type stores the
    [sizeof(T)] bytes of the value from [offset] on and returns
    [offset + sizeof(T)].  All other bytes of the buffer stay as they
    were. *)
Theorem write_advances b (offset : nat) :
  Z.of_nat (length (region b)) < 2 ^ 64 ->
  (forall s,
     (offset + String.length s + 1 <= length (region b))%nat ->
     write (StringValue s) (Z.of_nat offset) b
     = Some (mk (take offset (region b) ++ chars s ++ [0]
                 ++ drop (offset + String.length s + 1) (region b)),
             Z.of_nat offset + Z.of_nat (String.length s) + 1))
  /\ (forall repr,
        (offset + length repr <= length (region b))%nat ->
        write (ObjectValue repr) (Z.of_nat offset) b
        = Some (mk (take offset (region b) ++ repr
                    ++ drop (offset + length repr) (region b)),
                Z.of_nat offset + sizeof repr)).
Proof.
  intros Hcap. split; [intros s Hin | intros repr Hin]; cbn [write].
  - pose proof (length_chars s) as Hlen.
    rewrite Nat2Z.id.
    rewrite write_bytes_inside by lia. cbn [mbind option_bind].
    replace (Z.to_nat (Z.of_nat offset + Z.of_nat (String.length s)))
      with (offset + String.length s)%nat by lia.
    rewrite write_bytes_inside.
    2:{ rewrite length_write_inside by lia. cbn [length]. lia. }
    cbn [mbind option_bind length]. rewrite wrap64_small by lia.
    f_equal. f_equal. f_equal.
    rewrite (assoc_L app (take offset (region b))).
    rewrite take_app_length'.
    2:{ rewrite length_app, length_take, Hlen. lia. }
    rewrite drop_app_add'.
    2:{ rewrite length_app, length_take, Hlen. lia. }
    rewrite drop_drop, Hlen, <- (assoc_L app). reflexivity.
  - unfold write_raw, sizeof. rewrite !Nat2Z.id, firstn_all.
    rewrite write_bytes_inside by lia. cbn [mbind option_bind].
    rewrite wrap64_small by lia. reflexivity.
Qed.

(** An instance: the string "ab" written at offset 1 of a five-byte
    buffer. *)
Lemma write_advances_witness :
  Z.of_nat (length (region (mk [9; 9; 9; 9; 9]))) < 2 ^ 64
  /\ (1 + String.length "ab" + 1
      <= length (region (mk [9; 9; 9; 9; 9]%Z)))%nat
  /\ write (StringValue "ab") 1 (mk [9; 9; 9; 9; 9])
     = Some (mk [9; 97; 98; 0; 9], 4).
Proof.
  assert (Hcap : Z.of_nat (length (region (mk [9; 9; 9; 9; 9]))) < 2 ^ 64)
    by (cbn; lia).
  assert (Hin : (1 + String.length "ab" + 1
                 <= length (region (mk [9; 9; 9; 9; 9]%Z)))%nat)
    by (cbn; lia).
  split; [exact Hcap|]. split; [exact Hin|].
  exact (proj1 (write_advances (mk [9; 9; 9; 9; 9]) 1 Hcap) "ab" Hin).
Defined.

(** Writing outside the buffer is undefined: here the terminator would
    fall behind the last byte. *)
Lemma write_outside_is_undefined :
  write (StringValue "ab") 3 (mk [9; 9; 9; 9; 9]) = None.
Proof. reflexivity. Qed.

End BufferFacts.

Module VartTensorFacts.
Import Machine VartTensorBuffer MachineFacts.

Lemma product_pos dims : Forall (fun d => 0 < d) dims -> 0 < product dims.
Proof.
  induction 1 as [|d ds Hd _ IH]; cbn; [lia|].
  fold (product ds). nia.
Qed.

Lemma product_app pre ds : product (pre ++ ds) = product pre * product ds.
Proof.
  unfold product. induction pre as [|d pre IH]; cbn -[Z.mul]; [lia|].
  rewrite IH. lia.
Qed.

Lemma product_suffix_le pre ds :
  Forall (fun d => 0 < d) (pre ++ ds) -> product ds <= product (pre ++ ds).
Proof.
  intros H. apply Forall_app in H as [Hpre Hds].
  rewrite product_app.
  pose proof (product_pos _ Hpre). pose proof (product_pos _ Hds). nia.
Qed.

(** Without overflow the [int] loop computes the product it is meant to. *)
Lemma stride_loop ds : forall a,
  0 < a -> Forall (fun d => 0 < d) ds -> a * product ds <= INT_MAX ->
  foldl (fun stride d => wrap_int (stride * d)) a ds = a * product ds.
Proof.
  unfold INT_MAX.
  induction ds as [|d ds IH]; intros a Ha Hds Hmax; cbn [foldl].
  - cbn. lia.
  - inversion Hds as [|? ? Hd Hds']; subst.
    pose proof (product_pos _ Hds') as Hp.
    change (product (d :: ds)) with (d * product ds) in Hmax |- *.
    rewrite wrap_int_small by nia.
    rewrite IH; [lia | nia | exact Hds' | nia].
Qed.

Lemma stride_suffix pre d ds :
  Forall (fun d => 0 < d) (pre ++ d :: ds) ->
  product (pre ++ d :: ds) <= INT_MAX ->
  stride (pre ++ d :: ds) (length pre) = product ds.
Proof.
  intros Hpos Hmax. unfold stride.
  replace (drop (S (length pre)) (pre ++ d :: ds)) with ds.
  2:{ replace (S (length pre)) with (length pre + 1)%nat by lia.
      rewrite (drop_app_add' pre (d :: ds) (length pre) 1) by reflexivity.
      reflexivity. }
  assert (Hds : Forall (fun d => 0 < d) ds).
  { apply Forall_app in Hpos as [_ H]. inversion H; assumption. }
  rewrite stride_loop; [lia | lia | exact Hds |].
  pose proof (product_suffix_le (pre ++ [d]) ds) as Hle.
  rewrite <- (assoc_L app) in Hle. cbn [app] in Hle.
  specialize (Hle Hpos). lia.
Qed.

(** The loop over [k], started at position [length pre] with the digits
    of the positions before it already stored in [filled]: it stores the
    digits of the remaining offset in the remaining positions. *)
Lemma data_loop dims :
  Forall (fun d => 0 < d) dims -> product dims <= INT_MAX ->
  forall ds pre filled offset,
    dims = pre ++ ds -> length filled = length pre ->
    0 <= offset < product ds ->
    foldl (data_step dims)
          (Some (filled ++ replicate (length ds) 0, offset))
          (seq (length pre) (length ds))
    = Some (filled ++ decompose ds offset, 0).
Proof.
  intros Hpos Hmax.
  induction ds as [|d ds IH]; intros pre filled offset Hdims Hlen Hoff.
  - cbn in *. assert (offset = 0) as -> by lia. reflexivity.
  - cbn [length seq foldl replicate decompose].
    subst dims.
    pose proof (stride_suffix pre d ds Hpos Hmax) as Hstride.
    assert (Hds : 0 < d /\ Forall (fun d => 0 < d) ds).
    { apply Forall_app in Hpos as [_ H]. inversion H; split; assumption. }
    destruct Hds as [Hd Hds].
    pose proof (product_pos _ Hds) as Hp.
    pose proof (product_suffix_le pre (d :: ds) Hpos) as Hsuf.
    change (product (d :: ds)) with (d * product ds) in Hoff, Hsuf.
    unfold INT_MAX in Hmax.
    assert (Hs : product ds <= 2 ^ 31 - 1) by nia.
    assert (Hq : 0 <= offset / product ds <= offset).
    { split; [apply Z.div_pos; lia|].
      apply Z.div_le_upper_bound; nia. }
    assert (Hm : 0 <= offset mod product ds < product ds)
      by (apply Z.mod_pos_bound; lia).
    assert (Hdm : offset = product ds * (offset / product ds)
                           + offset mod product ds)
      by (apply Z.div_mod; lia).
    unfold data_step at 2. cbn [mbind option_bind].
    rewrite Hstride.
    rewrite (wrap64_small (product ds)) by lia.
    rewrite decide_False by lia.
    rewrite (wrap_int_small (offset / product ds)) by lia.
    rewrite (wrap_int_small (offset / product ds * product ds)) by nia.
    rewrite (wrap64_small (offset / product ds * product ds)) by nia.
    rewrite wrap64_small by nia.
    rewrite insert_app_r_alt by lia.
    replace (length pre - length filled)%nat with 0%nat by lia.
    cbn [insert list_insert].
    replace (offset - offset / product ds * product ds)
      with (offset mod product ds) by lia.
    specialize (IH (pre ++ [d]) (filled ++ [offset / product ds])
                   (offset mod product ds)).
    rewrite <- !(assoc_L app) in IH. cbn [app] in IH.
    rewrite !length_app in IH. cbn [length] in IH.
    replace (length pre + 1)%nat with (S (length pre)) in IH by lia.
    apply IH; [reflexivity | lia | exact Hm].
Qed.

Lemma decompose_in_bounds dims : forall offset,
  Forall (fun d => 0 < d) dims -> 0 <= offset < product dims ->
  in_bounds dims (decompose dims offset).
Proof.
  unfold in_bounds.
  induction dims as [|d ds IH]; intros offset Hpos Hoff; cbn [decompose].
  - constructor.
  - inversion Hpos as [|? ? Hd Hds]; subst.
    pose proof (product_pos _ Hds) as Hp.
    change (product (d :: ds)) with (d * product ds) in Hoff.
    constructor.
    + split; [apply Z.div_pos; lia|].
      apply Z.div_lt_upper_bound; nia.
    + apply IH; [exact Hds | apply Z.mod_pos_bound; lia].
Qed.

Lemma decompose_linear dims : forall offset,
  Forall (fun d => 0 < d) dims -> 0 <= offset < product dims ->
  linear dims (decompose dims offset) = offset.
Proof.
  induction dims as [|d ds IH]; intros offset Hpos Hoff;
    cbn [decompose linear].
  - cbn in Hoff. lia.
  - inversion Hpos as [|? ? Hd Hds]; subst.
    pose proof (product_pos _ Hds) as Hp.
    rewrite IH; [| exact Hds | apply Z.mod_pos_bound; lia].
    pose proof (Z.div_mod offset (product ds) ltac:(lia)). lia.
Qed.

Lemma linear_range dims index :
  in_bounds dims index -> 0 <= linear dims index < product dims.
Proof.
  unfold in_bounds.
  induction 1 as [|d i ds index Hi _ IH]; cbn [linear].
  - cbn. lia.
  - change (product (d :: ds)) with (d * product ds). nia.
Qed.

Lemma decompose_unique dims : forall index offset,
  in_bounds dims index -> linear dims index = offset ->
  index = decompose dims offset.
Proof.
  induction dims as [|d ds IH]; intros index offset Hb Hlin;
    inversion Hb as [|? i ? rest Hi Hrest]; subst; cbn [decompose linear].
  - reflexivity.
  - pose proof (linear_range ds rest Hrest) as Hr.
    assert (Hq : (i * product ds + linear ds rest) / product ds = i).
    { symmetry. apply (Z.div_unique _ _ i (linear ds rest)); lia. }
    assert (Hm : (i * product ds + linear ds rest) mod product ds
                 = linear ds rest).
    { symmetry. apply (Z.mod_unique _ _ i (linear ds rest)); lia. }
    rewrite Hq, Hm. f_equal. apply IH; [exact Hrest | reflexivity].
Qed.

(** C7 (amended).  For a shape with positive dimensions whose product
    fits in an [int], and an offset below that product,
    [VartTensorBuffer::data] computes the row-major mixed-radix digits of
    the offset: every digit lies within its dimension, the digits weighted
    by the products of the later dimensions sum to the offset, and no
    other index vector within the bounds does. *)
Theorem data_is_row_major dims offset :
  Forall (fun d => 0 < d) dims ->
  product dims <= INT_MAX ->
  0 <= offset < product dims ->
  exists index,
    data dims offset = Some index
    /\ in_bounds dims index
    /\ linear dims index = offset
    /\ forall index', in_bounds dims index' ->
                      linear dims index' = offset -> index' = index.
Proof.
  intros Hpos Hmax Hoff. exists (decompose dims offset).
  split; [|split; [|split]].
  - unfold data.
    pose proof (data_loop dims Hpos Hmax dims [] [] offset
                  eq_refl eq_refl Hoff) as H.
    cbn [app length] in H. rewrite H. reflexivity.
  - apply decompose_in_bounds; assumption.
  - apply decompose_linear; assumption.
  - intros index' Hb Hlin. apply decompose_unique; assumption.
Qed.

(** An instance: shape [2, 3, 4] and offset 17 = 1 * 12 + 1 * 4 + 1. *)
Lemma data_is_row_major_witness :
  Forall (fun d => 0 < d) [2; 3; 4]
  /\ product [2; 3; 4] <= INT_MAX
  /\ 0 <= 17 < product [2; 3; 4]
  /\ exists index,
       data [2; 3; 4] 17 = Some index
       /\ in_bounds [2; 3; 4] index
       /\ linear [2; 3; 4] index = 17
       /\ forall index', in_bounds [2; 3; 4] index' ->
                         linear [2; 3; 4] index' = 17 -> index' = index.
Proof.
  assert (Hpos : Forall (fun d => 0 < d) [2; 3; 4])
    by (repeat constructor).
  assert (Hmax : product [2; 3; 4] <= INT_MAX) by (vm_compute; discriminate).
  assert (Hoff : 0 <= 17 < product [2; 3; 4])
    by (vm_compute; split; congruence).
  split; [exact Hpos|]. split; [exact Hmax|]. split; [exact Hoff|].
  exact (data_is_row_major [2; 3; 4] 17 Hpos Hmax Hoff).
Defined.

(** C7 as stated fails when the product of the dimensions does not fit
    in an [int].  For the shape [3, 65536, 32768] the stride of the first
    dimension is 2^31, which wraps to -2^31; at offset 2^31 (below the
    product 3 * 2^31) the loop yields the index 65536 in the second
    dimension, whose extent is 65536. *)
Lemma data_overflow_counterexample :
  Forall (fun d => 0 < d) [3; 65536; 32768]
  /\ 0 <= 2 ^ 31 < product [3; 65536; 32768]
  /\ data [3; 65536; 32768] (2 ^ 31) = Some [0; 65536; 0]
  /\ ~ in_bounds [3; 65536; 32768] [0; 65536; 0].
Proof.
  split; [repeat constructor|]. split; [vm_compute; split; congruence|].
  split; [vm_compute; reflexivity|].
  unfold in_bounds. intros H.
  inversion H as [|? ? ? ? _ H1]; subst.
  inversion H1 as [|? ? ? ? Hbad _]; subst. lia.
Qed.

(** When the wrapped stride is 0 the division has no defined result. *)
Lemma data_zero_stride :
  data [2; 65536; 65536] 0 = None.
Proof. vm_compute. reflexivity. Qed.

End VartTensorFacts.

(* ===================================================================== *)
(** * Further properties                                                  *)
(* ===================================================================== *)

Module BatchHistoryFacts.
Import Core Batch BatchHistory.

Lemma run_calls_contents cs : forall b,
  requests_ (run_calls b cs) = requests_ b ++ added_requests cs
  /\ traces_ (run_calls b cs) = traces_ b ++ added_traces cs
  /\ start_times_ (run_calls b cs) = start_times_ b ++ added_times cs.
Proof.
  unfold run_calls, added_requests, added_traces, added_times.
  induction cs as [|c cs IH]; intros b; cbn [foldl omap list_omap].
  - rewrite !app_nil_r. done.
  - destruct (IH (step b c)) as (-> & -> & ->).
    destruct c; cbn; rewrite <- ?(assoc_L app); done.
Qed.

(** X1.  A batch stores what is added in the order of the calls,
    whatever else is called in between: [getRequests] is the list of the
    requests added, and [getRequest(i)], [getTrace(i)] and [getTime(i)]
    give the i-th request, trace and start time added, and throw
    [out_of_range] from the number added on. *)
Theorem batch_keeps_call_order cs i :
  getRequests (run_calls empty_batch cs) = added_requests cs
  /\ getRequest (run_calls empty_batch cs) i = added_requests cs !! i
  /\ getTrace (run_calls empty_batch cs) i = added_traces cs !! i
  /\ getTime (run_calls empty_batch cs) i = added_times cs !! i
  /\ ((count is_addRequest cs <= i)%nat ->
      getRequest (run_calls empty_batch cs) i = None).
Proof.
  destruct (run_calls_contents cs empty_batch) as (Hr & Ht & Hs).
  cbn [empty_batch requests_ traces_ start_times_ app] in Hr, Ht, Hs.
  unfold getRequests, getRequest, getTrace, getTime.
  rewrite Hr, Ht, Hs. repeat split.
  intros Hi. apply lookup_ge_None_2.
  destruct (BatchFacts.run_calls_lengths cs empty_batch) as (Hlen & _).
  rewrite Hr in Hlen. cbn in Hlen. lia.
Qed.

End BatchHistoryFacts.

Module ClientWaitFacts.
Import ClientWait.

Lemma wait_server_from pre : forall made slept tail,
  forallb keeps_waiting pre = true ->
  waitUntilServerReady_from made slept (pre ++ tail)
  = waitUntilServerReady_from
      (made + length pre)
      (slept + length (List.filter is_connection_error pre)) tail.
Proof.
  induction pre as [|p pre IH]; intros made slept tail Hpre.
  - cbn. rewrite !Nat.add_0_r. reflexivity.
  - cbn [forallb] in Hpre. apply andb_prop in Hpre as [Hp Hpre].
    destruct p as [[]| |]; try discriminate Hp; cbn [app List.filter
      is_connection_error waitUntilServerReady_from length];
      rewrite IH by exact Hpre; f_equal; lia.
Qed.

(** X2.  [waitUntilServerReady] keeps polling while the server answers
    "not ready" or the connection fails, and sleeps one second after each
    failed connection only.  It returns at the first poll that answers
    "ready" and makes no poll after it; any exception other than a
    connection error leaves the function at the poll that throws it. *)
Theorem waitUntilServerReady_first_ready pre rest what :
  forallb keeps_waiting pre = true ->
  waitUntilServerReady (pre ++ Answers true :: rest)
  = Returns (S (length pre))
            (length (List.filter is_connection_error pre))
  /\ waitUntilServerReady (pre ++ ThrowsOther what :: rest)
     = Throws what (S (length pre))
              (length (List.filter is_connection_error pre))
  /\ waitUntilServerReady pre
     = StillPolling (length pre)
                    (length (List.filter is_connection_error pre)).
Proof.
  intros Hpre. unfold waitUntilServerReady. repeat split.
  - rewrite wait_server_from by exact Hpre. reflexivity.
  - rewrite wait_server_from by exact Hpre. reflexivity.
  - rewrite <- (app_nil_r pre) at 1.
    rewrite wait_server_from by exact Hpre. reflexivity.
Qed.

(** An instance: a refused connection, "not ready", another refused
    connection, then "ready". *)
Lemma waitUntilServerReady_first_ready_witness :
  forallb keeps_waiting
          [ThrowsConnectionError; Answers false; ThrowsConnectionError] = true
  /\ waitUntilServerReady
       ([ThrowsConnectionError; Answers false; ThrowsConnectionError]
        ++ Answers true :: [Answers false])
     = Returns 4 2.
Proof.
  split; [reflexivity|].
  exact (proj1 (waitUntilServerReady_first_ready
                  [ThrowsConnectionError; Answers false; ThrowsConnectionError]
                  [Answers false] "" eq_refl)).
Defined.

Lemma wait_model_from k : forall made tail,
  waitUntilModelReady_from made (replicate k (Answers false) ++ tail)
  = waitUntilModelReady_from (made + k) tail.
Proof.
  induction k as [|k IH]; intros made tail; cbn [replicate app].
  - rewrite Nat.add_0_r. reflexivity.
  - cbn [waitUntilModelReady_from]. rewrite IH. f_equal. lia.
Qed.

(** X3.  [waitUntilModelReady] polls without sleeping while the server
    answers "not ready" and returns at the first "ready"; it catches
    nothing, so a failed connection or any other exception leaves it at
    the poll that throws, where [waitUntilServerReady] would sleep and
    poll again after a failed connection. *)
Theorem waitUntilModelReady_catches_nothing k rest what :
  waitUntilModelReady (replicate k (Answers false) ++ Answers true :: rest)
  = Returns (S k) 0
  /\ (exists e,
        waitUntilModelReady
          (replicate k (Answers false) ++ ThrowsConnectionError :: rest)
        = Throws e (S k) 0)
  /\ waitUntilModelReady
       (replicate k (Answers false) ++ ThrowsOther what :: rest)
     = Throws what (S k) 0
  /\ waitUntilServerReady
       (replicate k (Answers false) ++ ThrowsConnectionError
        :: Answers true :: rest)
     = Returns (S (S k)) 1.
Proof.
  unfold waitUntilModelReady, waitUntilServerReady.
  rewrite !wait_model_from. repeat split; [eexists; reflexivity|].
  rewrite (wait_server_from (replicate k (Answers false))
             0 0 (ThrowsConnectionError :: Answers true :: rest)).
  2:{ induction k as [|k IH]; [reflexivity | exact IH]. }
  cbn [waitUntilServerReady_from Nat.add]. rewrite length_replicate.
  f_equal. induction k as [|k IH]; [reflexivity | exact IH].
Qed.

End ClientWaitFacts.

Module ClientMoreFacts.
Import Machine Client MachineFacts.

Section WithClient.
Context {Request Response : Type}.
Context (response_to : nat -> string -> Request -> Response).

Lemma windows_zero_batch fuel model (requests : list Request) l :
  requests <> [] -> start_index l = 0 ->
  windows response_to fuel model requests 0 l = OutOfFuel.
Proof.
  intros Hne. revert l.
  induction fuel as [|fuel IH]; intros l Hstart; cbn [windows]; [done|].
  rewrite Hstart. change (wrap64 (0 + 0)) with 0.
  rewrite decide_True by (destruct requests; [done | cbn; lia]).
  unfold submit_range. cbn [seqZ]. rewrite seqZ_nil by lia. cbn [foldl].
  unfold collect. cbn [Z.to_nat Nat.iter nat_rect].
  apply IH. reflexivity.
Qed.

(** X4.  With a batch size of 0 and at least one request,
    [inferAsyncOrderedBatched] never returns: every pass through the
    [while] loop submits nothing, awaits nothing and leaves [start_index]
    at 0, so no number of iterations ends the loop. *)
Theorem batched_zero_batch_size_loops fuel model (requests : list Request)
    log0 :
  requests <> [] ->
  inferAsyncOrderedBatched response_to fuel model requests 0 log0
  = OutOfFuel.
Proof.
  intros Hne. unfold inferAsyncOrderedBatched.
  rewrite windows_zero_batch by done. reflexivity.
Qed.


End WithClient.

(** An instance: one request, a thousand iterations. *)
Lemma batched_zero_batch_size_loops_witness :
  [7%nat] <> []
  /\ inferAsyncOrderedBatched (fun k _ r => (k, r)) 1000 "echo" [7%nat] 0 []
     = OutOfFuel.
Proof.
  assert (Hne : [7%nat] <> []) by discriminate.
  split; [exact Hne|].
  exact (batched_zero_batch_size_loops (fun k _ r => (k, r)) 1000 "echo"
           [7%nat] [] Hne).
Defined.


End ClientMoreFacts.

Module ClientTraceFacts.
Import Machine Client ClientTrace MachineFacts.

Section WithClient.
Context {Request Response : Type}.
Context (response_to : nat -> string -> Request -> Response).







End WithClient.


End ClientTraceFacts.

Module BatchSizeFacts.
Import Core Batch BatchHistory.

(** X7.  [Batch::size] on a batch built by any history of calls.  In a
    build with [NDEBUG] the assertions are compiled out and the call
    returns for every history.  In a build that compiles them in it
    returns exactly when every compiled-in observation was added as
    often as a request: with tracing enabled as many [addTrace] as
    [addRequest] calls, with metrics enabled as many [addTime] calls;
    for every other history an assertion fails.  Whenever it returns,
    the result is the number of requests added. *)
Theorem size_asserts_matching_observations NDEBUG opts cs :
  (is_Some (size_in_build NDEBUG opts (run_calls empty_batch cs))
   <-> NDEBUG = true
       \/ ((AMDINFER_ENABLE_TRACING opts = true ->
            count is_addTrace cs = count is_addRequest cs)
           /\ (AMDINFER_ENABLE_METRICS opts = true ->
               count is_addTime cs = count is_addRequest cs)))
  /\ (forall n, size_in_build NDEBUG opts (run_calls empty_batch cs) = Some n
                -> n = count is_addRequest cs).
Proof.
  destruct (BatchFacts.run_calls_lengths cs empty_batch) as (Hr & Ht & Hs).
  cbn [empty_batch requests_ traces_ start_times_ length Nat.add] in Hr, Ht, Hs.
  assert (Hchecked :
            is_Some (size opts (run_calls empty_batch cs))
            <-> (AMDINFER_ENABLE_TRACING opts = true ->
                 count is_addTrace cs = count is_addRequest cs)
                /\ (AMDINFER_ENABLE_METRICS opts = true ->
                    count is_addTime cs = count is_addRequest cs)).
  { unfold size. rewrite Hr, Ht, Hs.
    destruct (AMDINFER_ENABLE_TRACING opts), (AMDINFER_ENABLE_METRICS opts);
      cbn [andb];
      repeat case_bool_decide; cbn [negb];
      split; try (intros [? ?]; discriminate); try (intros _; eauto; fail);
      try (intros _; split; intros; congruence);
      try (intros [H1 H2]; try specialize (H1 eq_refl);
           try specialize (H2 eq_refl); congruence). }
  assert (Hvalue : forall n, size opts (run_calls empty_batch cs) = Some n ->
                             n = count is_addRequest cs).
  { unfold size. intros n.
    destruct (_ && _); [discriminate|]. destruct (_ && _); [discriminate|].
    intros Hn. injection Hn as <-. exact Hr. }
  unfold size_in_build. destruct NDEBUG.
  - split; [split; eauto|]. intros n Hn. injection Hn as <-. exact Hr.
  - split; [|exact Hvalue]. rewrite Hchecked. split; [auto|].
    intros [Hn|H]; [discriminate Hn | exact H].
Qed.

End BatchSizeFacts.

Module EchoWorkerFacts.
Import Machine Core Echo EchoOrder MachineFacts.

(** Reading the elements of a list by their indices is reading the list. *)
Lemma mapM_seq_lookup {A B} (f : A -> option B) (l : list A) : forall pre,
  mapM (fun j => (pre ++ l) !! j ≫= f) (seq (length pre) (length l))
  = mapM f l.
Proof.
  induction l as [|a l IH]; intros pre; [reflexivity|].
  cbn [length seq mapM].
  rewrite list_lookup_middle by reflexivity. cbn [mbind option_bind].
  specialize (IH (pre ++ [a])).
  rewrite <- (assoc_L app) in IH. cbn [app] in IH.
  rewrite length_app in IH. cbn [length] in IH.
  rewrite Nat.add_1_r in IH. rewrite IH. reflexivity.
Qed.

Lemma mapM_app_option {A B} (f : A -> option B) (l1 l2 : list A) :
  mapM f (l1 ++ l2) = (ys ← mapM f l1; zs ← mapM f l2; Some (ys ++ zs)).
Proof.
  induction l1 as [|a l1 IH]; cbn [app mapM].
  - destruct (mapM f l2); reflexivity.
  - destruct (f a) as [y|]; cbn [mbind option_bind]; [|reflexivity].
    rewrite IH. destruct (mapM f l1) as [ys|]; cbn [mbind option_bind];
      [|reflexivity].
    destruct (mapM f l2); reflexivity.
Qed.

Lemma run_batch_answers opts batch :
  observed opts batch ->
  run_batch opts batch = mapM answer (Batch.requests_ batch).
Proof.
  intros [Ht Hm]. unfold run_batch.
  rewrite (BatchFacts.size_of_lengths opts batch Ht Hm).
  cbn [mbind option_bind].
  rewrite <- (mapM_seq_lookup answer (Batch.requests_ batch) []).
  cbn [app length].
  apply Forall_mapM_ext, Forall_forall. intros j Hj.
  apply elem_of_seq in Hj.
  unfold run_request, Batch.getRequest, Batch.getTrace, Batch.getTime.
  destruct (Batch.requests_ batch !! j) as [req|] eqn:Hreq;
    cbn [mbind option_bind]; [|reflexivity].
  assert (Htr : (if AMDINFER_ENABLE_TRACING opts
                 then Batch.traces_ batch !! j else Some 0%nat) <> None).
  { destruct (AMDINFER_ENABLE_TRACING opts); [|done].
    specialize (Ht eq_refl). intros E. apply lookup_ge_None_1 in E.
    unfold Batch.TracePtr in *. lia. }
  assert (Hti : (if AMDINFER_ENABLE_METRICS opts
                 then Batch.start_times_ batch !! j else Some 0) <> None).
  { destruct (AMDINFER_ENABLE_METRICS opts); [|done].
    specialize (Hm eq_refl). intros E. apply lookup_ge_None_1 in E.
    unfold Batch.time_point in *. lia. }
  destruct (if AMDINFER_ENABLE_TRACING opts then _ else _); [|done].
  cbn [mbind option_bind]. unfold answer.
  destruct (respond req) as [resp|]; cbn [mbind option_bind fmap option_fmap
    option_map]; [|reflexivity].
  destruct (if AMDINFER_ENABLE_METRICS opts then _ else _); [|done].
  reflexivity.
Qed.

(** X8.  The Echo worker answers the requests first in, first out and
    each of them once: up to the null sentinel it runs, batch by batch and
    inside a batch in the order the requests were added, the callback of
    every request with the response built for it, and it dequeues nothing
    behind the sentinel.  It crashes exactly when the response of one of
    these requests cannot be built. *)
Theorem echo_worker_first_in_first_out opts pre rest :
  Forall (observed opts) pre ->
  doRun opts ((Some <$> pre) ++ None :: rest)
  = mapM answer (pre ≫= Batch.requests_).
Proof.
  induction pre as [|batch pre IH]; intros Hobs; [reflexivity|].
  apply Forall_cons in Hobs as [Hb Hpre].
  cbn [fmap list_fmap app doRun mbind list_bind].
  rewrite (IH Hpre), mapM_app_option, (run_batch_answers _ _ Hb).
  reflexivity.
Qed.

(** An instance: two batches, of one and of two requests, then the
    sentinel and a batch that is never dequeued. *)
Lemma echo_worker_first_in_first_out_witness :
  let r k := mkRequest "" [mkInput "in" [1] DataType.Uint32 (encode_u32 k)]
                       [] (Z.to_nat k) in
  let o k := mkResponse "" "echo"
               [mkOutput "in" [1] DataType.Uint32 (encode_u32 k)] in
  let opts := mkOptions false false in
  let pre := [Batch.mk [r 10] [] [] [] []; Batch.mk [r 20; r 30] [] [] [] []] in
  Forall (observed opts) pre
  /\ doRun opts ((Some <$> pre) ++ None :: [Some (Batch.mk [r 40] [] [] [] [])])
     = Some [RunCallbackOnce 10 (o 11); RunCallbackOnce 20 (o 21);
             RunCallbackOnce 30 (o 31)].
Proof.
  intros r o opts pre.
  assert (Hobs : Forall (observed opts) pre).
  { repeat constructor; discriminate. }
  split; [exact Hobs|].
  etrans; [exact (echo_worker_first_in_first_out opts pre
                    [Some (Batch.mk [r 40] [] [] [] [])] Hobs)|].
  vm_compute. reflexivity.
Defined.

Lemma echo_output_at inputs outputs i input :
  inputs !! i = Some input ->
  echo_output inputs outputs i
  = (v ← read_u32 (in_data input);
     first ← inputs !! 0%nat;
     Some (mkOutput
             (if decide (requested_name outputs i = ""%string)
              then in_name first else requested_name outputs i)
             [1] DataType.Uint32 (encode_u32 (wrap32 (v + 1))))).
Proof.
  intros Hi. unfold echo_output. rewrite Hi. cbn [mbind option_bind].
  destruct (read_u32 (in_data input)) as [v|]; cbn [mbind option_bind];
    [|reflexivity].
  assert (is_Some (inputs !! 0%nat)) as [first Hfirst].
  { apply lookup_lt_is_Some. apply lookup_lt_Some in Hi. lia. }
  rewrite Hfirst. cbn [mbind option_bind].
  destruct (decide _); reflexivity.
Qed.

Lemma read_u32_defined (region : list byte) :
  is_Some (read_u32 region) <-> (4 <= length region)%nat.
Proof.
  split; [|apply EchoFacts.read_u32_is_Some].
  destruct region as [|b0 [|b1 [|b2 [|b3 rest]]]]; cbn;
    intros [v Hv]; try discriminate. lia.
Qed.

(** X9.  The response of the Echo worker to a request with any number of
    input tensors.  It can be built exactly when every input holds at
    least the four bytes of a [uint32_t].  It then carries the id of the
    request, the model name "echo" and one output per input, in the order
    of the inputs: of datatype UINT32 and shape [1], holding the first
    word of the input plus one modulo 2^32, and named by the requested
    output of the same index when that has a non-empty name and by the
    first input otherwise. *)
Theorem echo_response_per_input req :
  (is_Some (respond req)
   <-> Forall (fun input => (4 <= length (in_data input))%nat)
              (req_inputs req))
  /\ forall resp, respond req = Some resp ->
       resp_id resp = req_id req
       /\ resp_model resp = "echo"%string
       /\ length (resp_outputs resp) = length (req_inputs req)
       /\ forall i input, req_inputs req !! i = Some input ->
            exists v first,
              read_u32 (in_data input) = Some v
              /\ req_inputs req !! 0%nat = Some first
              /\ resp_outputs resp !! i
                 = Some (mkOutput
                           (if decide (requested_name (req_outputs req) i
                                       = ""%string)
                            then in_name first
                            else requested_name (req_outputs req) i)
                           [1] DataType.Uint32
                           (encode_u32 (wrap32 (v + 1)))).
Proof.
  unfold respond. split.
  - transitivity (is_Some (mapM (echo_output (req_inputs req) (req_outputs req))
                                (seq 0 (length (req_inputs req))))).
    { destruct (mapM _ _); cbn [mbind option_bind]; split; intros [? ?];
        try discriminate; eauto. }
    rewrite mapM_is_Some, !Forall_forall. split.
    + intros Hall input Hin.
      apply list_elem_of_lookup in Hin as [i Hi].
      assert (Hseq : i ∈ seq 0 (length (req_inputs req))).
      { apply elem_of_seq. apply lookup_lt_Some in Hi. lia. }
      specialize (Hall i Hseq). cbn [compose] in Hall.
      rewrite (echo_output_at _ _ _ _ Hi) in Hall.
      apply read_u32_defined.
      destruct (read_u32 (in_data input)); [eauto|].
      destruct Hall as [? Hall]. discriminate Hall.
    + intros Hall i Hseq. apply elem_of_seq in Hseq. cbn [compose].
      assert (is_Some (req_inputs req !! i)) as [input Hi]
        by (apply lookup_lt_is_Some; lia).
      rewrite (echo_output_at _ _ _ _ Hi).
      assert (is_Some (read_u32 (in_data input))) as [v ->].
      { apply read_u32_defined, Hall, list_elem_of_lookup. eauto. }
      assert (is_Some (req_inputs req !! 0%nat)) as [first ->]
        by (apply lookup_lt_is_Some; lia).
      cbn [mbind option_bind]. eauto.
  - intros resp Hresp.
    destruct (mapM _ _) as [outs|] eqn:Hmap; [|discriminate].
    cbn [mbind option_bind] in Hresp. injection Hresp as <-.
    cbn [resp_id resp_model resp_outputs].
    apply mapM_Some_1 in Hmap.
    pose proof (Forall2_length _ _ _ Hmap) as Hlen.
    rewrite length_seq in Hlen.
    repeat split; [congruence|].
    intros i input Hi.
    assert (Hseq : seq 0 (length (req_inputs req)) !! i = Some i).
    { apply lookup_seq. apply lookup_lt_Some in Hi. lia. }
    destruct (Forall2_lookup_l _ _ _ _ _ Hmap Hseq) as (out & Hout & Hecho).
    rewrite (echo_output_at _ _ _ _ Hi) in Hecho.
    destruct (read_u32 (in_data input)) as [v|]; [|discriminate].
    cbn [mbind option_bind] in Hecho.
    destruct (req_inputs req !! 0%nat) as [first|]; [|discriminate].
    cbn [mbind option_bind] in Hecho. injection Hecho as <-.
    exists v, first. done.
Qed.


End EchoWorkerFacts.

Module EchoModelRunFacts.
Import Machine Core EchoModel EchoOrder EchoModelForm MachineFacts.

Lemma paired_step {A B} (g : A -> B -> B) k : forall xs ys x y,
  xs !! k = Some x -> ys !! k = Some y ->
  paired g (take k xs) ys !! k = Some y
  /\ <[k := g x y]> (paired g (take k xs) ys) = paired g (take (S k) xs) ys.
Proof.
  unfold paired.
  induction k as [|k IH]; intros [|x0 xs] [|y0 ys] x y Hx Hy;
    try discriminate.
  - cbn in Hx, Hy. injection Hx as ->. injection Hy as ->.
    cbn. rewrite take_0. cbn. rewrite drop_0. done.
  - cbn in Hx, Hy. destruct (IH xs ys x y Hx Hy) as [H1 H2].
    cbn. split; [exact H1 | f_equal; exact H2].
Qed.

Lemma partners_lookup {A B} (P : A -> B -> Prop) xs ys k x :
  partners P xs ys -> xs !! k = Some x ->
  exists y, ys !! k = Some y /\ P x y.
Proof.
  intros Hp Hx.
  destruct (Forall2_lookup_l _ _ _ _ _ Hp Hx) as (y & Hy & HP).
  apply lookup_take_Some in Hy as [Hy _]. eauto.
Qed.

Lemma run_inputs_prefix inputs targets k :
  partners (fun input target => readable input /\ readable target)
           inputs targets ->
  (k <= length inputs)%nat ->
  foldl (fun acc i => new ← acc; run_input inputs new i)
        (Some targets) (seq 0 k)
  = Some (paired echo_input (take k inputs) targets).
Proof.
  intros Hfit. induction k as [|k IH]; intros Hk.
  - cbn. unfold paired. cbn. rewrite drop_0. reflexivity.
  - rewrite seq_S, foldl_app, IH by lia. cbn [foldl mbind option_bind Nat.add].
    assert (is_Some (inputs !! k)) as [input Hinput]
      by (apply lookup_lt_is_Some; lia).
    destruct (partners_lookup _ _ _ _ _ Hfit Hinput)
      as (target & Htarget & Hri & Hrt).
    destruct (paired_step echo_input k inputs targets input target
                Hinput Htarget) as [Hlook Hins].
    unfold run_input. rewrite Hinput. cbn [mbind option_bind].
    destruct (EchoFacts.read_u32_is_Some _ Hri) as [v Hv].
    rewrite Hv. cbn [mbind option_bind]. rewrite Hlook.
    cbn [mbind option_bind]. unfold copy_u32.
    rewrite write_bytes_inside
      by (rewrite length_encode_u32; unfold readable in Hrt; lia).
    rewrite length_encode_u32. cbn [mbind option_bind take app Nat.add].
    rewrite <- Hins. unfold echo_input. rewrite Hv. reflexivity.
Qed.

Lemma run_inputs_paired req new_request :
  inputs_fit req new_request ->
  run_inputs (req_inputs req) (req_inputs new_request)
  = Some (paired echo_input (req_inputs req) (req_inputs new_request)).
Proof.
  intros Hfit. unfold run_inputs.
  rewrite (run_inputs_prefix _ _ _ Hfit) by lia.
  rewrite firstn_all. reflexivity.
Qed.

Lemma run_requests_prefix opts batch new_batch k :
  observed opts batch ->
  partners inputs_fit (Batch.requests_ batch) (Batch.requests_ new_batch) ->
  (k <= length (Batch.requests_ batch))%nat ->
  foldl (fun acc j => nb ← acc; run_request opts batch nb j)
        (Some new_batch) (seq 0 k)
  = Some (Batch.mk
            (paired echo_request (take k (Batch.requests_ batch))
                    (Batch.requests_ new_batch))
            (Batch.input_buffers_ new_batch)
            (Batch.output_buffers_ new_batch)
            (Batch.traces_ new_batch
             ++ (if AMDINFER_ENABLE_TRACING opts
                 then take k (Batch.traces_ batch) else []))
            (Batch.start_times_ new_batch
             ++ (if AMDINFER_ENABLE_METRICS opts
                 then take k (Batch.start_times_ batch) else []))).
Proof.
  intros [Ht Hm] Hfit. induction k as [|k IH]; intros Hk.
  - cbn [seq foldl take]. unfold paired. cbn [zip_with length app].
    rewrite drop_0. destruct new_batch.
    destruct (AMDINFER_ENABLE_TRACING opts), (AMDINFER_ENABLE_METRICS opts);
      cbn; rewrite ?app_nil_r; reflexivity.
  - rewrite seq_S, foldl_app, IH by lia. cbn [foldl mbind option_bind Nat.add].
    assert (is_Some (Batch.requests_ batch !! k)) as [req Hreq]
      by (apply lookup_lt_is_Some; lia).
    destruct (partners_lookup _ _ _ _ _ Hfit Hreq) as (nreq & Hnreq & Hin).
    destruct (paired_step echo_request k _ _ req nreq Hreq Hnreq)
      as [Hlook Hins].
    unfold run_request, Batch.getRequest, Batch.getTrace, Batch.getTime,
      Batch.addTrace, Batch.addTime.
    rewrite Hreq. cbn [mbind option_bind Batch.requests_].
    rewrite Hlook.
    destruct (AMDINFER_ENABLE_TRACING opts) eqn:Etr;
      destruct (AMDINFER_ENABLE_METRICS opts) eqn:Eme.
    + assert (is_Some (Batch.traces_ batch !! k)) as [tr Htr]
        by (apply lookup_lt_is_Some; rewrite <- Ht by done; lia).
      assert (is_Some (Batch.start_times_ batch !! k)) as [ts Hts]
        by (apply lookup_lt_is_Some; rewrite <- Hm by done; lia).
      rewrite Htr, Hts. cbn [mbind option_bind].
      rewrite (run_inputs_paired _ _ Hin). cbn [mbind option_bind].
      cbn [Batch.requests_ Batch.input_buffers_ Batch.output_buffers_
           Batch.traces_ Batch.start_times_].
      rewrite (take_S_r _ _ _ Htr), (take_S_r _ _ _ Hts), !(assoc_L app).
      f_equal. f_equal. exact Hins.
    + assert (is_Some (Batch.traces_ batch !! k)) as [tr Htr]
        by (apply lookup_lt_is_Some; rewrite <- Ht by done; lia).
      rewrite Htr. cbn [mbind option_bind].
      rewrite (run_inputs_paired _ _ Hin). cbn [mbind option_bind].
      cbn [Batch.requests_ Batch.input_buffers_ Batch.output_buffers_
           Batch.traces_ Batch.start_times_].
      rewrite (take_S_r _ _ _ Htr), !(assoc_L app).
      f_equal. f_equal. exact Hins.
    + assert (is_Some (Batch.start_times_ batch !! k)) as [ts Hts]
        by (apply lookup_lt_is_Some; rewrite <- Hm by done; lia).
      rewrite Hts. cbn [mbind option_bind].
      rewrite (run_inputs_paired _ _ Hin). cbn [mbind option_bind].
      cbn [Batch.requests_ Batch.input_buffers_ Batch.output_buffers_
           Batch.traces_ Batch.start_times_].
      rewrite (take_S_r _ _ _ Hts), !(assoc_L app).
      f_equal. f_equal. exact Hins.
    + cbn [mbind option_bind].
      rewrite (run_inputs_paired _ _ Hin). cbn [mbind option_bind].
      cbn [Batch.requests_ Batch.input_buffers_ Batch.output_buffers_
           Batch.traces_ Batch.start_times_].
      f_equal. f_equal. exact Hins.
Qed.

(** X10.  The [echo] model, on a batch whose observations match its
    requests and a new batch that has a request for each request of the
    batch, with a tensor of at least four bytes for each of its inputs
    (themselves of at least four bytes).  Request by request and tensor by
    tensor, the first four bytes of the new tensor become the first word
    of the input plus one modulo 2^32 and the rest of the tensor, its
    name, shape and datatype stay; the new request takes the callback of
    the request and keeps its own id and outputs; requests and tensors
    without a partner and the buffers of the new batch stay; the traces
    and start times of the batch are appended to those of the new batch
    when they are compiled in. *)
Theorem echo_model_run_in_closed_form opts batch new_batch :
  observed opts batch ->
  partners inputs_fit (Batch.requests_ batch) (Batch.requests_ new_batch) ->
  run opts batch new_batch
  = Some (Batch.mk
            (paired echo_request (Batch.requests_ batch)
                    (Batch.requests_ new_batch))
            (Batch.input_buffers_ new_batch)
            (Batch.output_buffers_ new_batch)
            (Batch.traces_ new_batch
             ++ (if AMDINFER_ENABLE_TRACING opts
                 then Batch.traces_ batch else []))
            (Batch.start_times_ new_batch
             ++ (if AMDINFER_ENABLE_METRICS opts
                 then Batch.start_times_ batch else []))).
Proof.
  intros Hobs Hfit. unfold run.
  rewrite (BatchFacts.size_of_lengths opts batch (proj1 Hobs) (proj2 Hobs)).
  cbn [mbind option_bind].
  rewrite (run_requests_prefix _ _ _ _ Hobs Hfit) by lia.
  destruct Hobs as [Ht Hm].
  rewrite firstn_all.
  assert (Htake : forall {A} (l : list A),
            length (Batch.requests_ batch) = length l ->
            take (length (Batch.requests_ batch)) l = l).
  { intros A l ->. apply firstn_all. }
  destruct (AMDINFER_ENABLE_TRACING opts), (AMDINFER_ENABLE_METRICS opts);
    rewrite ?(Htake _ _ (Ht eq_refl)), ?(Htake _ _ (Hm eq_refl));
    reflexivity.
Qed.

(** An instance: two requests, the second with two inputs, echoed into a
    new batch of three requests whose tensors are six bytes long. *)
Lemma echo_model_run_in_closed_form_witness :
  let t v := mkInput "" [1] DataType.Uint32 (encode_u32 v) in
  let z := mkInput "out" [1] DataType.Uint32 [0; 0; 0; 0; 7; 7] in
  let o v := mkInput "out" [1] DataType.Uint32 (encode_u32 v ++ [7; 7]) in
  let opts := mkOptions true true in
  let batch :=
    Batch.mk [mkRequest "a" [t 1] [] 5; mkRequest "b" [t 2; t 3] [] 6]
             [] [] [8; 9]%nat [80; 90] in
  let new_batch :=
    Batch.mk [mkRequest "x" [z] [] 0; mkRequest "y" [z; z; z] [] 0;
              mkRequest "w" [z] [] 0] [1%nat] [2%nat] [] [] in
  observed opts batch
  /\ partners inputs_fit (Batch.requests_ batch) (Batch.requests_ new_batch)
  /\ run opts batch new_batch
     = Some (Batch.mk [mkRequest "x" [o 2] [] 5;
                       mkRequest "y" [o 3; o 4; z] [] 6;
                       mkRequest "w" [z] [] 0]
                      [1%nat] [2%nat] [8; 9]%nat [80; 90]).
Proof.
  intros t z o opts batch new_batch.
  assert (Hobs : observed opts batch) by (split; reflexivity).
  assert (Hfit : partners inputs_fit (Batch.requests_ batch)
                          (Batch.requests_ new_batch)).
  { repeat constructor; cbn; lia. }
  split; [exact Hobs|]. split; [exact Hfit|].
  etrans; [exact (echo_model_run_in_closed_form opts batch new_batch
                    Hobs Hfit)|].
  vm_compute. reflexivity.
Defined.

End EchoModelRunFacts.

Module HttpHealthFacts.
Import Machine Core HttpClient HttpHealth.

Section WithWire.
Context {Json : Type}.
Context (sendRequest : @HttpRequest Json -> ReqResult * @HttpResponse Json).

Lemma getClients_from k : forall (st : @State Json),
  0 < num_clients_ st -> 0 <= counter_ st < num_clients_ st ->
  getClients k st
  = ((fun i => (counter_ st + Z.of_nat i) mod num_clients_ st) <$> seq 0 k,
     mkState (headers_ st)
             ((counter_ st + Z.of_nat k) mod num_clients_ st)
             (num_clients_ st) (sent st)).
Proof.
  induction k as [|k IH]; intros st Hn Hc.
  - cbn [getClients seq fmap list_fmap]. change (Z.of_nat 0) with 0.
    rewrite Z.add_0_r, Z.mod_small by lia. destruct st; reflexivity.
  - cbn [getClients getClient].
    assert (Hrem : (counter_ st + 1) `rem` num_clients_ st
                   = (counter_ st + 1) mod num_clients_ st)
      by (apply Z.rem_mod_nonneg; lia).
    rewrite Hrem, IH; cbn [num_clients_ counter_ headers_ sent].
    2: lia.
    2: apply Z.mod_pos_bound; lia.
    cbn [seq fmap list_fmap]. f_equal.
    + f_equal.
      * change (Z.of_nat 0) with 0. rewrite Z.add_0_r, Z.mod_small by lia.
        reflexivity.
      * rewrite <- fmap_S_seq, <- list_fmap_compose.
        apply list_fmap_ext. intros _ i _. cbn [compose].
        rewrite Zplus_mod_idemp_l. f_equal. lia.
    + f_equal. rewrite Zplus_mod_idemp_l. f_equal. lia.
Qed.

(** X11.  [getClient] hands the pooled clients out in round robin.  In a
    pool of [n > 0] clients whose counter is a valid index, the [i]-th of
    any number of successive calls returns client
    [(counter + i) mod n]: every client returned is a valid index into
    the pool, [n] successive calls return each client of the pool once,
    and the counter is a valid index again afterwards. *)
Theorem getClient_round_robin (k : nat) (st : @State Json) :
  0 < num_clients_ st -> 0 <= counter_ st < num_clients_ st ->
  (getClients k st).1
  = (fun i => (counter_ st + Z.of_nat i) mod num_clients_ st) <$> seq 0 k
  /\ Forall (fun client => 0 <= client < num_clients_ st) (getClients k st).1
  /\ 0 <= counter_ (getClients k st).2 < num_clients_ st
  /\ (getClients (Z.to_nat (num_clients_ st)) st).1
     ≡ₚ seqZ 0 (num_clients_ st).
Proof.
  intros Hn Hc. rewrite !getClients_from by assumption. cbn [fst snd counter_].
  split; [reflexivity|]. split; [|split].
  - apply Forall_fmap, Forall_forall. intros i _. cbn [compose].
    apply Z.mod_pos_bound. lia.
  - apply Z.mod_pos_bound. lia.
  - apply NoDup_Permutation.
    + apply NoDup_fmap_2_strong; [|apply NoDup_seq].
      intros i j Hi Hj Heq. apply elem_of_seq in Hi, Hj.
      assert (Hdiff : (Z.of_nat i - Z.of_nat j) mod num_clients_ st = 0).
      { rewrite Zminus_mod.
        replace (Z.of_nat i mod num_clients_ st)
          with ((counter_ st + Z.of_nat i - counter_ st) mod num_clients_ st)
          by (f_equal; lia).
        replace (Z.of_nat j mod num_clients_ st)
          with ((counter_ st + Z.of_nat j - counter_ st) mod num_clients_ st)
          by (f_equal; lia).
        rewrite (Zminus_mod (counter_ st + Z.of_nat i)),
                (Zminus_mod (counter_ st + Z.of_nat j)), Heq.
        rewrite <- Zminus_mod, Z.sub_diag. reflexivity. }
      apply Z.mod_divide in Hdiff; [|lia].
      destruct Hdiff as [q Hq].
      assert (q = 0) by nia. lia.
    + apply NoDup_seqZ.
    + intros client. rewrite list_elem_of_fmap, elem_of_seqZ. split.
      * intros (i & -> & _).
        pose proof (Z.mod_pos_bound (counter_ st + Z.of_nat i)
                      (num_clients_ st) Hn). lia.
      * intros Hclient.
        exists (Z.to_nat ((client - counter_ st) mod num_clients_ st)).
        pose proof (Z.mod_pos_bound (client - counter_ st)
                      (num_clients_ st) Hn) as Hb.
        split; [|apply elem_of_seq; lia].
        rewrite Z2Nat.id by lia. rewrite Zplus_mod_idemp_r.
        replace (counter_ st + (client - counter_ st)) with client by lia.
        rewrite Z.mod_small by lia. reflexivity.
Qed.

(** X12.  The health calls of the HTTP client, on a pool that is not
    empty and whose counter is a valid index.  Each takes the next
    client of the pool and hands it one GET request without a body.
    [serverLive] never throws: it answers [true] exactly when the request
    succeeded with status 200, and [false] on every failure of the
    transport.  [serverReady] and [modelReady] return exactly when the
    transport succeeded, and throw what [checkError] throws otherwise:
    [connection_error] when the server address is bad. *)
Theorem health_calls_and_transport_failures (st : @State Json) model :
  0 < num_clients_ st -> 0 <= counter_ st < num_clients_ st ->
  let live := createGetRequest "/v2/health/live" (headers_ st) in
  let ready := createGetRequest "/v2/health/ready" (headers_ st) in
  let mready :=
    createGetRequest ("/v2/models/" +:+ model +:+ "/ready") (headers_ st) in
  (exists b, (serverLive sendRequest st).1 = Value b
             /\ (b = true <-> (sendRequest live).1 = Ok
                              /\ statusCode (sendRequest live).2 = k200OK))
  /\ ((exists b, (serverReady sendRequest st).1 = Value b)
      <-> (sendRequest ready).1 = Ok)
  /\ ((exists b, (modelReady sendRequest model st).1 = Value b)
      <-> (sendRequest mready).1 = Ok)
  /\ (forall e, (serverReady sendRequest st).1 = Throws e
                <-> checkError (sendRequest ready).1 = Throws e)
  /\ (forall e, (modelReady sendRequest model st).1 = Throws e
                <-> checkError (sendRequest mready).1 = Throws e)
  /\ ((sendRequest ready).1 = BadServerAddress ->
      (serverReady sendRequest st).1
      = Throws (connection_error "Cannot connect to the server"))
  /\ sent (serverLive sendRequest st).2 = sent st ++ [(counter_ st, live)]
  /\ sent (serverReady sendRequest st).2 = sent st ++ [(counter_ st, ready)]
  /\ sent (modelReady sendRequest model st).2
     = sent st ++ [(counter_ st, mready)]
  /\ http_body live = None /\ http_method live = Get.
Proof.
  intros _ _ live ready mready.
  unfold serverLive, serverReady, modelReady. cbn [getClient headers_].
  fold live ready mready.
  destruct (sendRequest live) as [r1 resp1].
  destruct (sendRequest ready) as [r2 resp2].
  destruct (sendRequest mready) as [r3 resp3]. cbn [fst snd].
  repeat split.
  - destruct r1; cbn [fst];
      try (exists false; split; [reflexivity|];
           split; [discriminate | intros [? _]; discriminate]).
    eexists. split; [reflexivity|]. rewrite bool_decide_eq_true. tauto.
  - destruct r2; cbn; intros [b Hb]; try discriminate; reflexivity.
  - intros ->. cbn. eauto.
  - destruct r3; cbn; intros [b Hb]; try discriminate; reflexivity.
  - intros ->. cbn. eauto.
  - destruct (checkError r2); cbn [fst]; congruence.
  - destruct (checkError r2); cbn [fst]; congruence.
  - destruct (checkError r3); cbn [fst]; congruence.
  - destruct (checkError r3); cbn [fst]; congruence.
  - intros ->. reflexivity.
  - destruct r1; reflexivity.
  - destruct (checkError r2); reflexivity.
  - destruct (checkError r3); reflexivity.
Qed.

End WithWire.

(** An instance: a pool of three clients whose counter stands at 2. *)
Lemma getClient_round_robin_witness :
  0 < num_clients_ (mkState (Json := unit) [] 2 3 [])
  /\ 0 <= counter_ (mkState (Json := unit) [] 2 3 [])
     < num_clients_ (mkState (Json := unit) [] 2 3 [])
  /\ (getClients 7 (mkState (Json := unit) [] 2 3 [])).1
     = (fun i => (counter_ (mkState (Json := unit) [] 2 3 []) + Z.of_nat i)
                 mod num_clients_ (mkState (Json := unit) [] 2 3 []))
       <$> seq 0 7.
Proof.
  assert (Hn : 0 < num_clients_ (mkState (Json := unit) [] 2 3 []))
    by reflexivity.
  assert (Hc : 0 <= counter_ (mkState (Json := unit) [] 2 3 [])
               < num_clients_ (mkState (Json := unit) [] 2 3 []))
    by (cbn; lia).
  split; [exact Hn|]. split; [exact Hc|].
  exact (proj1 (getClient_round_robin 7 (mkState (Json := unit) [] 2 3 [])
                  Hn Hc)).
Defined.

(** An instance: a pool of two clients whose counter stands at 1, and a
    server whose address is bad. *)
Lemma health_calls_and_transport_failures_witness :
  let st := mkState (Json := unit) [("k", "v")]%string 1 2 [] in
  let down := fun _ : @HttpRequest unit =>
                (BadServerAddress, mkHttpResponse 0 "" ()) in
  0 < num_clients_ st
  /\ 0 <= counter_ st < num_clients_ st
  /\ (exists b, (serverLive down st).1 = Value b
                /\ (b = true <->
                    (down (createGetRequest "/v2/health/live"
                                            (headers_ st))).1 = Ok
                    /\ statusCode
                         (down (createGetRequest "/v2/health/live"
                                                 (headers_ st))).2
                       = k200OK)).
Proof.
  intros st down.
  assert (Hn : 0 < num_clients_ st) by reflexivity.
  assert (Hc : 0 <= counter_ st < num_clients_ st) by (cbn; lia).
  split; [exact Hn|]. split; [exact Hc|].
  exact (proj1 (health_calls_and_transport_failures down st "echo" Hn Hc)).
Defined.

Lemma length_filter_fmap {A B} (f : A -> B) (P : B -> Prop)
    `{!forall y, Decision (P y)} (xs : list A) :
  length (filter P (f <$> xs)) = length (filter (fun x => P (f x)) xs).
Proof.
  induction xs as [|x xs IH]; [reflexivity|].
  rewrite fmap_cons. destruct (decide (P (f x))) as [Hx|Hx].
  - rewrite !filter_cons_True by exact Hx. cbn [length]. rewrite IH. done.
  - rewrite !filter_cons_False by exact Hx. exact IH.
Qed.

(** X13.  The constructor of the HTTP client starts
    [parallelism / 16 + 1] event loops and attaches client [i] to loop
    [i % threads].  For every [parallelism >= 0] each client gets a loop
    that exists (so [loops_[i % threads]] is inside the vector), there
    are [parallelism] clients, and no loop serves more than 16 of
    them. *)
Theorem event_loops_serve_at_most_16_clients parallelism loop :
  0 <= parallelism ->
  Forall (fun l => 0 <= l < threads parallelism) (client_loops parallelism)
  /\ length (client_loops parallelism) = Z.to_nat parallelism
  /\ (clients_on parallelism loop <= 16)%nat.
Proof.
  intros Hp. unfold client_loops, clients_on, client_loops, threads,
    client_thread_ratio.
  rewrite Z.quot_div_nonneg by lia.
  set (t := parallelism `div` 16 + 1).
  assert (Ht : 0 < t) by (pose proof (Z.div_pos parallelism 16); lia).
  assert (Hlt : parallelism < 16 * t).
  { pose proof (Z.mul_succ_div_gt parallelism 16 ltac:(lia)). lia. }
  split; [|split].
  - apply Forall_fmap, Forall_forall. intros i Hi. cbn [compose].
    apply elem_of_seqZ in Hi.
    rewrite Z.rem_mod_nonneg by lia. apply Z.mod_pos_bound. lia.
  - rewrite length_fmap, length_seqZ. reflexivity.
  - rewrite length_filter_fmap.
    set (L := filter (fun i => i `rem` t = loop) (seqZ 0 parallelism)).
    assert (HL : forall i, i ∈ L ->
                 0 <= i < parallelism /\ i mod t = loop).
    { intros i Hi. apply list_elem_of_filter in Hi as [Hrem Hi].
      apply elem_of_seqZ in Hi.
      rewrite Z.rem_mod_nonneg in Hrem by lia. lia. }
    rewrite <- (length_fmap (fun i => i `div` t) L).
    change 16%nat with (Z.to_nat 16). rewrite <- (length_seqZ 0 16).
    apply submseteq_length, NoDup_submseteq.
    + apply NoDup_fmap_2_strong.
      * intros i j Hi Hj Hdiv.
        destruct (HL i Hi) as [_ Hmi]. destruct (HL j Hj) as [_ Hmj].
        rewrite (Z.div_mod i t), (Z.div_mod j t) by lia. congruence.
      * apply NoDup_filter, NoDup_seqZ.
    + intros q Hq. apply list_elem_of_fmap in Hq as (i & -> & Hi).
      destruct (HL i Hi) as [Hrange _].
      apply elem_of_seqZ. split; [apply Z.div_pos; lia|].
      apply Z.div_lt_upper_bound; lia.
Qed.

(** An instance: forty clients on three loops. *)
Lemma event_loops_serve_at_most_16_clients_witness :
  0 <= 40
  /\ length (client_loops 40) = Z.to_nat 40
  /\ (clients_on 40 0 <= 16)%nat.
Proof.
  assert (Hp : 0 <= 40) by lia.
  split; [exact Hp|].
  exact (proj2 (event_loops_serve_at_most_16_clients 40 0 Hp)).
Defined.


End HttpHealthFacts.

Module ModelFilesFacts.
Import Machine ModelRepository ModelFiles.






(** The paths are joined as [fs::path::operator/] joins them: a
    repository given with a trailing separator, an empty repository and
    the nested directory of KServe. *)
Lemma parseModel_joins_paths :
  let config := mkConfig "onnx_onnxv1" [] [] [] in
  let flat := mkFileSystem (fun _ => true) (fun _ => Parsed config) in
  let kserve :=
    mkFileSystem (fun p => String.eqb p "repo/resnet/resnet/config.pbtxt")
                 (fun _ => Parsed config) in
  parseModel log_put flat "repo/" "resnet" []
  = Done [("worker"%string, PString "migraphx");
          ("model"%string, PString "repo/resnet/1/saved_model.onnx")]
  /\ parseModel log_put flat "" "resnet" []
     = Done [("worker"%string, PString "migraphx");
             ("model"%string, PString "resnet/1/saved_model.onnx")]
  /\ parseModel log_put kserve "repo" "resnet" []
     = Done [("worker"%string, PString "migraphx");
             ("model"%string,
              PString "repo/resnet/resnet/1/saved_model.onnx")]
  /\ locate kserve "repo" "resnet"
     = ("repo/resnet/resnet"%string,
        "repo/resnet/resnet/config.pbtxt"%string).
Proof. repeat split. Qed.

End ModelFilesFacts.

Module GrpcInternalFacts.
Import Machine ModelRepository GrpcInternal MachineFacts.

(** The parameter an entry of the protobuf map is read back as. *)
Lemma mapProtoToParameters_log params : forall l,
  mapProtoToParameters log_put params l
  = l ++ omap (fun kv =>
                 match kv.2 with
                 | kBoolParam b => Some (kv.1, PBool b)
                 | kInt64Param i => Some (kv.1, PInt (wrap_int i))
                 | kDoubleParam d => Some (kv.1, PDouble d)
                 | kStringParam s => Some (kv.1, PString s)
                 | PARAMETER_CHOICE_NOT_SET => None
                 end) params.
Proof.
  unfold mapProtoToParameters.
  induction params as [|[k v] params IH]; intros l; cbn [foldl omap list_omap].
  - rewrite app_nil_r. reflexivity.
  - rewrite IH. cbn [fst snd].
    destruct v; unfold log_put; rewrite <- ?(assoc_L app); reflexivity.
Qed.

Lemma mapParametersToProto_fresh parameters : forall m,
  NoDup (parameters.*1) ->
  (forall k, k ∈ parameters.*1 -> k ∉ m.*1) ->
  mapParametersToProto parameters m
  = m ++ ((fun kv => (kv.1, to_proto kv.2)) <$> parameters).
Proof.
  unfold mapParametersToProto.
  induction parameters as [|[k v] parameters IH]; intros m Hnd Hfresh;
    cbn [foldl fmap list_fmap].
  - rewrite app_nil_r. reflexivity.
  - rewrite fmap_cons in Hnd. apply NoDup_cons in Hnd as [Hk Hnd].
    cbn [fst snd] in *. unfold proto_insert at 2. cbn [fst].
    rewrite decide_False by (apply Hfresh; left).
    rewrite IH; [rewrite <- (assoc_L app); reflexivity | exact Hnd |].
    intros k' Hk'. rewrite fmap_app, elem_of_app. cbn.
    rewrite list_elem_of_singleton. intros [Hm | ->].
    + apply (Hfresh k'); [right; exact Hk' | exact Hm].
    + exact (Hk Hk').
Qed.

(** X15.  Parameters survive the gRPC wire.  [mapParametersToProto]
    turns the entries of a parameter map (its keys are distinct) into one
    protobuf entry each, and [mapProtoToParameters], in whatever order
    the protobuf map is iterated, puts every key once with the value it
    had: booleans, doubles and strings as they are, and integers too,
    since an [int32_t] widened to the 64-bit field is not changed by the
    cast back to [int]. *)
Theorem parameters_survive_the_wire parameters iterated :
  NoDup (parameters.*1) ->
  Forall (fun kv => int32_valued kv.2) parameters ->
  iterated ≡ₚ mapParametersToProto parameters [] ->
  mapParametersToProto parameters []
  = (fun kv => (kv.1, to_proto kv.2)) <$> parameters
  /\ mapProtoToParameters log_put iterated [] ≡ₚ parameters.
Proof.
  intros Hnd Hint Hperm.
  assert (Hto : mapParametersToProto parameters []
                = (fun kv => (kv.1, to_proto kv.2)) <$> parameters).
  { rewrite mapParametersToProto_fresh; [reflexivity | exact Hnd |].
    intros k _. cbn. apply not_elem_of_nil. }
  split; [exact Hto|].
  rewrite mapProtoToParameters_log. cbn [app].
  rewrite Hperm, Hto. clear Hperm Hto Hnd.
  induction Hint as [|[k v] parameters Hv _ IH]; [reflexivity|].
  rewrite fmap_cons. cbn [omap list_omap fst snd].
  destruct v as [b|i|d|s]; cbn [to_proto]; try (rewrite IH; reflexivity).
  cbn [int32_valued snd] in Hv.
  rewrite wrap_int_small by (unfold INT_MAX; lia). rewrite IH. reflexivity.
Qed.

(** An instance: three parameters, iterated by the protobuf map in
    another order. *)
Lemma parameters_survive_the_wire_witness :
  let parameters :=
    [("batch"%string, PInt (-7)); ("key"%string, PString "k");
     ("share"%string, PBool true)] in
  let iterated :=
    [("share"%string, kBoolParam true); ("batch"%string, kInt64Param (-7));
     ("key"%string, kStringParam "k")] in
  NoDup (parameters.*1)
  /\ Forall (fun kv => int32_valued kv.2) parameters
  /\ iterated ≡ₚ mapParametersToProto parameters []
  /\ mapProtoToParameters log_put iterated [] ≡ₚ parameters.
Proof.
  intros parameters iterated.
  assert (Hnd : NoDup (parameters.*1)).
  { cbn. repeat (apply NoDup_cons; split;
      [rewrite ?elem_of_cons, elem_of_nil; intuition discriminate|]).
    apply NoDup_nil. done. }
  assert (Hint : Forall (fun kv => int32_valued kv.2) parameters).
  { repeat constructor; cbn; lia. }
  assert (Hperm : iterated ≡ₚ mapParametersToProto parameters []).
  { vm_compute. apply (Permutation_cons_append [_; _] _). }
  split; [exact Hnd|]. split; [exact Hint|]. split; [exact Hperm|].
  exact (proj2 (parameters_survive_the_wire parameters iterated
                  Hnd Hint Hperm)).
Defined.

End GrpcInternalFacts.

Module GrpcServerFacts.
Import GrpcServer.

Lemma occurrences_app a xs ys :
  occurrences a (xs ++ ys) = (occurrences a xs + occurrences a ys)%nat.
Proof. unfold occurrences. rewrite filter_app, length_app. reflexivity. Qed.

Lemma occurrences_cons a x xs :
  occurrences a (x :: xs)
  = ((if decide (x = a) then 1 else 0) + occurrences a xs)%nat.
Proof.
  unfold occurrences. destruct (decide (x = a)) as [H|H].
  - rewrite filter_cons_True by exact H. reflexivity.
  - rewrite filter_cons_False by exact H. reflexivity.
Qed.

Ltac count_actions :=
  cbn [snd app] in *;
  rewrite ?occurrences_app, ?occurrences_cons;
  change (occurrences ?a []) with 0%nat;
  repeat case_decide; try congruence; lia.

Lemma life_counts handler stimuli : forall s,
  let actions := (life handler (Some s) stimuli).2 in
  (occurrences WaitForRequest actions
   <= match s with Create => 1 | _ => 0 end)%nat
  /\ (occurrences AddNewCallData actions
      <= match s with Create | Process => 1 | _ => 0 end)%nat
  /\ (occurrences HandleRequest actions
      <= match s with Create | Process => 1 | _ => 0 end)%nat
  /\ (occurrences Delete actions <= 1)%nat
  /\ (occurrences HandleRequest actions
      <= occurrences AddNewCallData actions)%nat.
Proof.
  induction stimuli as [|[|code] stimuli IH]; intros s; cbn zeta.
  - destruct s; cbn; lia.
  - destruct s; cbn [life proceed finish].
    + specialize (IH Process). cbn zeta in IH.
      destruct (life handler (Some Process) stimuli) as [final more].
      count_actions.
    + specialize (IH Wait). cbn zeta in IH.
      destruct handler as [code|]; cbn [finish app];
        destruct (life _ (Some Wait) stimuli) as [final more];
        count_actions.
    + specialize (IH Wait). cbn zeta in IH.
      destruct (life handler (Some Wait) stimuli) as [final more].
      count_actions.
    + destruct stimuli; cbn [life snd]; count_actions.
  - specialize (IH Finish). cbn zeta in IH. cbn [life finish].
    destruct (life handler (Some Finish) stimuli) as [final more].
    destruct s; count_actions.
Qed.

Lemma life_without_callback handler stimuli : forall s,
  s <> Finish ->
  (forall code, CallbackFinish code ∉ stimuli) ->
  (Delete ∉ (life handler (Some s) stimuli).2)
  /\ reaches_deleted handler (Some s) stimuli = false.
Proof.
  induction stimuli as [|[|code] stimuli IH]; intros s Hs Hnone.
  - destruct s; cbn; split; try reflexivity; apply not_elem_of_nil.
  - assert (Hrest : forall code, CallbackFinish code ∉ stimuli).
    { intros code Hin. apply (Hnone code). right. exact Hin. }
    destruct s; [| | |contradiction]; cbn [life reaches_deleted proceed fst].
    + destruct (IH Process ltac:(discriminate) Hrest) as [Hd Hr].
      destruct (life handler (Some Process) stimuli) as [final more].
      cbn [snd] in *. split; [|exact Hr].
      rewrite elem_of_app, list_elem_of_singleton.
      intros [H|H]; [discriminate H | exact (Hd H)].
    + destruct (IH Wait ltac:(discriminate) Hrest) as [Hd Hr].
      destruct handler as [code|]; cbn [finish fst];
        destruct (life _ (Some Wait) stimuli) as [final more];
        cbn [snd app] in *; (split; [|exact Hr]);
        rewrite !elem_of_cons; intros H; destruct_or?;
        try discriminate; exact (Hd H).
    + destruct (IH Wait ltac:(discriminate) Hrest) as [Hd Hr].
      destruct (life handler (Some Wait) stimuli) as [final more].
      cbn [snd] in *. split; [|exact Hr].
      rewrite elem_of_app, list_elem_of_singleton.
      intros [H|H]; [discriminate H | exact (Hd H)].
  - exfalso. apply (Hnone code). left.
Qed.

(** X16.  Whatever reaches a call object of the gRPC server, in whatever
    order, and whether or not its handler finishes the call itself: up
    to its deletion it asks for a request at most once, it is handled at
    most once, and a fresh call object is created in its place at most
    once and never less often than it is handled.  Only a [finish] from
    outside [proceed] leads to its deletion: while no callback finishes
    the call it is not deleted, and nothing reaches a deleted object.
    The deletion itself is not guarded: when [finish] is called twice,
    each call queues an event, the first of them deletes the object and
    the second reaches the deleted object. *)
Theorem call_is_handled_at_most_once handler stimuli code1 code2 k :
  let actions := (life handler (Some Create) stimuli).2 in
  (occurrences WaitForRequest actions <= 1)%nat
  /\ (occurrences AddNewCallData actions <= 1)%nat
  /\ (occurrences HandleRequest actions <= 1)%nat
  /\ (occurrences HandleRequest actions
      <= occurrences AddNewCallData actions)%nat
  /\ ((forall code, CallbackFinish code ∉ stimuli) ->
      (Delete ∉ actions)
      /\ reaches_deleted handler (Some Create) stimuli = false)
  /\ reaches_deleted handler (Some Create)
       (Tag :: Tag :: replicate k Tag
        ++ [CallbackFinish code1; CallbackFinish code2; Tag; Tag])
     = true.
Proof.
  cbn zeta.
  destruct (life_counts handler stimuli Create) as (Hw & Ha & Hh & _ & Hha).
  repeat (split; [assumption|]). split.
  - apply life_without_callback. discriminate.
  - destruct handler; cbn [reaches_deleted proceed finish fst app];
      (induction k as [|k IH]; [reflexivity | exact IH]).
Qed.

Lemma life_waits handler n :
  life handler (Some Wait) (replicate n Tag) = (Some Wait, replicate n Yield).
Proof.
  induction n as [|n IH]; [reflexivity|].
  cbn [replicate life proceed]. rewrite IH. reflexivity.
Qed.

(** X17.  A call whose handler calls [finish] before it returns (as the
    handlers of ServerLive and ServerReady do) is never deleted:
    [proceed] sets the status to [Wait] after the handler, over the
    [Finish] that [finish] had set, so every later event of the
    completion queue, the completion of the response among them, only
    yields.  A call that is finished by the callback of its request after
    [proceed] has returned is deleted at the next event. *)
Theorem finish_inside_the_handler_is_never_deleted code n k :
  life (Some code) (Some Create) (Tag :: Tag :: replicate n Tag)
  = (Some Wait,
     [WaitForRequest; AddNewCallData; HandleRequest; ResponderFinish code]
     ++ replicate n Yield)
  /\ (Delete ∉ snd (life (Some code) (Some Create)
                         (Tag :: Tag :: replicate n Tag)))
  /\ life None (Some Create)
          (Tag :: Tag :: replicate k Tag ++ [CallbackFinish code; Tag]
           ++ replicate n Tag)
     = (None,
        [WaitForRequest; AddNewCallData; HandleRequest]
        ++ replicate k Yield ++ [ResponderFinish code; Delete]).
Proof.
  assert (Hsync : life (Some code) (Some Create)
                       (Tag :: Tag :: replicate n Tag)
                  = (Some Wait,
                     [WaitForRequest; AddNewCallData; HandleRequest;
                      ResponderFinish code] ++ replicate n Yield)).
  { cbn [life proceed finish]. rewrite life_waits. reflexivity. }
  split; [exact Hsync|]. split.
  - rewrite Hsync. cbn [snd]. rewrite elem_of_app, !elem_of_cons, elem_of_nil.
    intros [[H|[H|[H|[H|[]]]]]|H]; try discriminate.
    apply elem_of_replicate in H as [H _]. discriminate.
  - cbn [life proceed finish app].
    assert (Hasync : forall m,
              life None (Some Wait)
                   (replicate m Tag ++ CallbackFinish code :: Tag
                    :: replicate n Tag)
              = (None, replicate m Yield ++ [ResponderFinish code; Delete])).
    { induction m as [|m IH]; cbn [replicate app life proceed finish].
      - destruct n; reflexivity.
      - rewrite IH. reflexivity. }
    rewrite Hasync. reflexivity.
Qed.

End GrpcServerFacts.

Module VartTensorMoreFacts.
Import Machine VartTensorBuffer MachineFacts VartTensorFacts.

Lemma data_decompose dims offset :
  Forall (fun d => 0 < d) dims -> product dims <= INT_MAX ->
  0 <= offset < product dims ->
  data dims offset = Some (decompose dims offset).
Proof.
  intros Hpos Hmax Hoff. unfold data.
  pose proof (data_loop dims Hpos Hmax dims [] [] offset
                eq_refl eq_refl Hoff) as H.
  cbn [app length] in H. rewrite H. reflexivity.
Qed.

Lemma decompose_zero dims :
  decompose dims 0 = replicate (length dims) 0.
Proof.
  induction dims as [|d ds IH]; [reflexivity|].
  cbn [decompose length replicate].
  rewrite Zdiv_0_l, Zmod_0_l, IH. reflexivity.
Qed.

(** X18.  [VartTensorBuffer::data] on the offsets it is meant for.  For
    a shape with positive dimensions whose product fits in an [int]: the
    offset of the first element of batch [b], which is [b] times the
    number of elements per batch, gives the index [b, 0, ..., 0] ("the
    first argument is the batch index, the other indices should be zero
    to get the start of the batch"); and two different offsets inside the
    tensor never give the same index. *)
Theorem data_batch_start_and_distinct_offsets batches rest b o1 o2 :
  Forall (fun d => 0 < d) (batches :: rest) ->
  product (batches :: rest) <= INT_MAX ->
  0 <= b < batches ->
  0 <= o1 < product (batches :: rest) ->
  0 <= o2 < product (batches :: rest) ->
  data (batches :: rest) (b * product rest)
  = Some (b :: replicate (length rest) 0)
  /\ (data (batches :: rest) o1 = data (batches :: rest) o2 -> o1 = o2).
Proof.
  intros Hpos Hmax Hb Ho1 Ho2. split.
  - assert (Hrest : 0 < product rest).
    { apply product_pos. inversion Hpos; assumption. }
    rewrite data_decompose; [|exact Hpos|exact Hmax|].
    2:{ change (product (batches :: rest)) with (batches * product rest).
        nia. }
    cbn [decompose].
    rewrite Z.div_mul, Z.mod_mul, decompose_zero by lia. reflexivity.
  - rewrite !data_decompose by assumption. intros Heq.
    assert (Hd : decompose (batches :: rest) o1
                 = decompose (batches :: rest) o2) by congruence.
    rewrite <- (decompose_linear (batches :: rest) o1 Hpos Ho1),
            <- (decompose_linear (batches :: rest) o2 Hpos Ho2), Hd.
    reflexivity.
Qed.

(** An instance: the shape [4, 2, 3] and the start of batch 2. *)
Lemma data_batch_start_and_distinct_offsets_witness :
  Forall (fun d => 0 < d) [4; 2; 3]
  /\ product [4; 2; 3] <= INT_MAX
  /\ 0 <= 2 < 4
  /\ 0 <= 5 < product [4; 2; 3]
  /\ 0 <= 7 < product [4; 2; 3]
  /\ data [4; 2; 3] (2 * product [2; 3]) = Some (2 :: replicate (length [2; 3]) 0).
Proof.
  assert (Hpos : Forall (fun d => 0 < d) [4; 2; 3]) by (repeat constructor).
  assert (Hmax : product [4; 2; 3] <= INT_MAX) by (vm_compute; discriminate).
  assert (Hb : 0 <= 2 < 4) by lia.
  assert (Ho1 : 0 <= 5 < product [4; 2; 3])
    by (vm_compute; split; congruence).
  assert (Ho2 : 0 <= 7 < product [4; 2; 3])
    by (vm_compute; split; congruence).
  split; [exact Hpos|]. split; [exact Hmax|]. split; [exact Hb|].
  split; [exact Ho1|]. split; [exact Ho2|].
  exact (proj1 (data_batch_start_and_distinct_offsets 4 [2; 3] 2 5 7
                  Hpos Hmax Hb Ho1 Ho2)).
Defined.

End VartTensorMoreFacts.

Module InvertVideoFacts.
Import Machine Core InvertVideo.

Section WithVideo.
Context {Frame : Type}.
Context (bitwise_not : Frame -> Frame).
Context (base64_jpg : Frame -> string).
Context (constructMessage : string -> string -> string).

Lemma send_frames_pictures callback rid key count fs : forall num_frames,
  send_frames bitwise_not base64_jpg constructMessage callback rid key count
              num_frames fs
  = (picture_event bitwise_not base64_jpg constructMessage callback rid key
       <$> take (Z.to_nat (count - num_frames)) (pictures fs),
     bool_decide (Z.to_nat (count - num_frames) <= length (pictures fs))%nat).
Proof.
  unfold pictures.
  induction fs as [|[frame|] fs IH]; intros num_frames;
    cbn [send_frames omap list_omap].
  - destruct (decide (num_frames < count)) as [Hlt|Hge].
    + rewrite take_nil. cbn [fmap list_fmap length].
      rewrite bool_decide_eq_false_2 by lia. reflexivity.
    + replace (Z.to_nat (count - num_frames)) with 0%nat by lia.
      rewrite bool_decide_eq_true_2 by lia. reflexivity.
  - destruct (decide (num_frames < count)) as [Hlt|Hge].
    + rewrite IH.
      replace (Z.to_nat (count - num_frames))
        with (S (Z.to_nat (count - (num_frames + 1)))) by lia.
      cbn [id take fmap list_fmap length].
      f_equal. apply bool_decide_ext. lia.
    + replace (Z.to_nat (count - num_frames)) with 0%nat by lia.
      rewrite bool_decide_eq_true_2 by lia. reflexivity.
  - destruct (decide (num_frames < count)) as [Hlt|Hge].
    + rewrite IH. reflexivity.
    + replace (Z.to_nat (count - num_frames)) with 0%nat by lia.
      rewrite bool_decide_eq_true_2 by lia. reflexivity.
Qed.

(** X19.  What the InvertVideo worker streams for one input.  When the
    video cannot be opened it runs the error callback once and goes on.
    Otherwise it first sends the frame rate under the name ["key"], then
    the inverted, JPEG-encoded pictures of the video in their order, one
    response each under the name ["image"], skipping empty frames without
    counting them, until [count] pictures are sent, where [count] is the
    ["count"] parameter of the input if it has one and the frame count of
    the video otherwise.  It never sends more than [count] pictures, and
    when the video holds fewer the loop does not end. *)
Theorem invert_video_streams_count_pictures callback rid key cap
    count_parameter :
  let count := default (frame_count cap) count_parameter in
  run_input bitwise_not base64_jpg constructMessage callback rid key None
            count_parameter
  = ([RunCallbackError callback "Cannot open video file"], true)
  /\ run_input bitwise_not base64_jpg constructMessage callback rid key
               (Some cap) count_parameter
     = (RunCallback callback
          (message_response rid "key" (constructMessage key (fps cap)))
        :: (picture_event bitwise_not base64_jpg constructMessage
                          callback rid key
              <$> take (Z.to_nat count) (pictures (frames cap))),
        bool_decide (Z.to_nat count <= length (pictures (frames cap)))%nat).
Proof.
  cbn zeta. split; [reflexivity|]. unfold run_input.
  rewrite send_frames_pictures, Z.sub_0_r.
  destruct count_parameter; reflexivity.
Qed.

End WithVideo.
End InvertVideoFacts.

Module EchoMultiMoreFacts.
Import Machine Core EchoMulti MachineFacts.

Ltac next_byte d H := destruct d as [|? d]; [cbn in H; lia|].
Ltac no_more_bytes d H := destruct d; [|cbn in H; lia]; clear H.

(** X20.  The [echo_multi] model for any element values and any regions.
    For a request whose two inputs start with the words [a] and [b, c],
    and a new request with three tensors of at least one, four and three
    words, the tensors are filled with [a], [b, c, a, b] and [c, a, b]:
    the three input elements are replayed cyclically, and the replay
    goes on from one output tensor to the next instead of starting
    again.  Bytes behind these words, the names, shapes and datatypes of
    the tensors and the id of the new request stay; its callback
    becomes that of the request. *)
Theorem echo_multi_replays_across_outputs a b c more0 more1
    rid in0 in1 sh0 sh1 dt0 dt1 outputs cb
    nid n0 n1 n2 s0 s1 s2 t0 t1 t2 d0 d1 d2 r0 r1 r2 nouts ncb
    ib ob nib nob :
  0 <= a < 2 ^ 32 -> 0 <= b < 2 ^ 32 -> 0 <= c < 2 ^ 32 ->
  length d0 = 4%nat -> length d1 = 16%nat -> length d2 = 12%nat ->
  run (mkOptions false false)
      (Batch.mk [mkRequest rid
                   [mkInput in0 sh0 dt0 (words [a] ++ more0);
                    mkInput in1 sh1 dt1 (words [b; c] ++ more1)]
                   outputs cb]
                ib ob [] [])
      (Batch.mk [mkRequest nid
                   [mkInput n0 s0 t0 (d0 ++ r0);
                    mkInput n1 s1 t1 (d1 ++ r1);
                    mkInput n2 s2 t2 (d2 ++ r2)]
                   nouts ncb]
                nib nob [] [])
  = Some (Batch.mk
            [mkRequest nid
               [mkInput n0 s0 t0 (words [a] ++ r0);
                mkInput n1 s1 t1 (words [b; c; a; b] ++ r1);
                mkInput n2 s2 t2 (words [c; a; b] ++ r2)]
               nouts cb]
            nib nob [] []).
Proof.
  intros Ha Hb Hc H0 H1 H2.
  do 4 next_byte d0 H0. no_more_bytes d0 H0.
  do 16 next_byte d1 H1. no_more_bytes d1 H1.
  do 12 next_byte d2 H2. no_more_bytes d2 H2.
  cbn -[Z.modulo Z.div Z.pow wrap32 wrap_int guard].
  case_guard; [|done].
  cbn -[Z.modulo Z.div Z.pow wrap32 wrap_int].
  rewrite !combine_bytes by assumption.
  cbn -[Z.modulo Z.div Z.pow wrap32 wrap_int].
  rewrite !wrap32_wrap_int by assumption.
  repeat (rewrite write_bytes_inside by (cbn; lia);
          cbn -[Z.modulo Z.div Z.pow wrap32 wrap_int];
          rewrite ?wrap32_wrap_int by assumption).
  reflexivity.
Qed.

(** An instance: the values 10, 20 and 30 and zeroed tensors with a
    spare byte behind the first. *)
Lemma echo_multi_replays_across_outputs_witness :
  0 <= 10 < 2 ^ 32 /\ 0 <= 20 < 2 ^ 32 /\ 0 <= 30 < 2 ^ 32
  /\ run (mkOptions false false)
         (Batch.mk [mkRequest "id"
                      [mkInput "input0" [1] DataType.Uint32 (words [10] ++ []);
                       mkInput "input1" [2] DataType.Uint32
                               (words [20; 30] ++ [])]
                      [] 7]
                   [] [] [] [])
         (Batch.mk [mkRequest ""
                      [mkInput "output0" [1] DataType.Uint32
                               (replicate 4 0 ++ [9]);
                       mkInput "output1" [4] DataType.Uint32
                               (replicate 16 0 ++ []);
                       mkInput "output2" [3] DataType.Uint32
                               (replicate 12 0 ++ [])]
                      [] 0]
                   [] [] [] [])
     = Some (Batch.mk
               [mkRequest ""
                  [mkInput "output0" [1] DataType.Uint32 (words [10] ++ [9]);
                   mkInput "output1" [4] DataType.Uint32
                           (words [20; 30; 10; 20] ++ []);
                   mkInput "output2" [3] DataType.Uint32
                           (words [30; 10; 20] ++ [])]
                  [] 7]
               [] [] [] []).
Proof.
  assert (Ha : 0 <= 10 < 2 ^ 32) by lia.
  assert (Hb : 0 <= 20 < 2 ^ 32) by lia.
  assert (Hc : 0 <= 30 < 2 ^ 32) by lia.
  split; [exact Ha|]. split; [exact Hb|]. split; [exact Hc|].
  exact (echo_multi_replays_across_outputs 10 20 30 [] []
           "id" "input0" "input1" [1] [2] DataType.Uint32 DataType.Uint32
           [] 7%nat "" "output0" "output1" "output2" [1] [4] [3]
           DataType.Uint32 DataType.Uint32 DataType.Uint32
           (replicate 4 0) (replicate 16 0) (replicate 12 0) [9] [] []
           [] 0%nat [] [] [] [] Ha Hb Hc eq_refl eq_refl eq_refl).
Defined.

End EchoMultiMoreFacts.

Module HttpInferFacts.
Import Machine Core HttpClient.

Section WithWire.
Context {Json : Type}.
Context (mapRequestToJson : InferenceRequest -> Json).
Context (mapJsonToResponse : Json -> InferenceResponse).
Context (sendRequest : @HttpRequest Json -> ReqResult * @HttpResponse Json).

(** X21.  An inference request with at least one input, on a pool that
    is not empty and whose counter is a valid index, is put on the wire
    exactly once by [modelInfer] and by [modelInferAsync]: as a POST to
    [/v2/models/<model>/infer] that carries the request as JSON and the
    headers of the client, handed to the next client of the pool.
    [modelInfer] then returns a response exactly when the transport
    succeeded and the status is 200, and throws otherwise.
    [modelInferAsync] itself always returns its future; when the
    transport succeeded the future holds a response read from the reply
    exactly when the status is 200 or the body of the reply is empty
    (the handler tells an error by its message being non-empty), and an
    error response with the body as its message otherwise. *)
Theorem inference_is_posted_once model request (st : @State Json) :
  req_inputs request <> [] ->
  0 < num_clients_ st -> 0 <= counter_ st < num_clients_ st ->
  let req :=
    mkHttpRequest Post ("/v2/models/" +:+ model +:+ "/infer")
                  (Some (mapRequestToJson request)) (headers_ st) in
  sent (modelInfer mapRequestToJson mapJsonToResponse sendRequest
                   model request st).2
  = sent st ++ [(counter_ st, req)]
  /\ sent (modelInferAsync mapRequestToJson mapJsonToResponse sendRequest
                           model request st).2
     = sent st ++ [(counter_ st, req)]
  /\ ((exists resp,
         (modelInfer mapRequestToJson mapJsonToResponse sendRequest
                     model request st).1 = Value resp)
      <-> (sendRequest req).1 = Ok
          /\ statusCode (sendRequest req).2 = k200OK)
  /\ (exists promised,
        (modelInferAsync mapRequestToJson mapJsonToResponse sendRequest
                         model request st).1 = Value promised
        /\ ((sendRequest req).1 = Ok ->
            promised
            = if decide (statusCode (sendRequest req).2 = k200OK
                         \/ body (sendRequest req).2 = ""%string)
              then PromisedResponse
                     (mapJsonToResponse (jsonObject (sendRequest req).2))
              else PromisedError (body (sendRequest req).2))
        /\ (forall what,
              checkError (sendRequest req).1 = Throws (bad_status what) ->
              promised = PromisedError what)).
Proof.
  intros Hne _ _ req.
  unfold modelInfer, modelInferAsync, createInferenceRequest,
    createPostRequest.
  rewrite bool_decide_eq_false_2 by exact Hne.
  cbn [getClient send headers_]. fold req.
  destruct (sendRequest req) as [result response]. cbn [fst snd].
  split; [|split; [|split]].
  - destruct (checkError result); [|reflexivity].
    destruct (decide _); reflexivity.
  - reflexivity.
  - destruct result; cbn [checkError fst];
      try (split; [intros [? H]; discriminate H
                  | intros [H _]; discriminate H]).
    destruct (decide (statusCode response ≠ k200OK)) as [Hs|Hs]; cbn [fst].
    + split; [intros [? H]; discriminate H | intros [_ H]; contradiction].
    + split; [|eauto]. intros _. split; [reflexivity|].
      destruct (decide (statusCode response = k200OK)); [assumption|].
      contradiction.
  - eexists. split; [reflexivity|]. split.
    + intros ->. unfold on_reply. cbn [checkError fst snd].
      destruct (decide (statusCode response ≠ k200OK)) as [Hs|Hs].
      * destruct (decide (body response = ""%string)) as [Hb|Hb].
        -- rewrite decide_True by (right; exact Hb). reflexivity.
        -- rewrite decide_False by (intros [H|H]; contradiction).
           reflexivity.
      * rewrite decide_True by reflexivity.
        rewrite decide_True; [reflexivity|].
        left. destruct (decide (statusCode response = k200OK));
          [assumption | contradiction].
    + intros what Hwhat. unfold on_reply. cbn [fst].
      destruct result; cbn [checkError] in *; try discriminate Hwhat;
        injection Hwhat as <-;
        (rewrite decide_False by (cbn; discriminate)); reflexivity.
Qed.

End WithWire.

(** An instance: a request with one input, a pool of two clients whose
    counter stands at 1, and a server that answers 500 with an empty
    body. *)
Lemma inference_is_posted_once_witness :
  let request := mkRequest "id" [mkInput "in" [1] DataType.Uint32 []] [] 0 in
  let st := mkState (Json := unit) [("k", "v")]%string 1 2 [] in
  let server := fun _ : @HttpRequest unit => (Ok, mkHttpResponse 500 "" ()) in
  req_inputs request <> []
  /\ 0 < num_clients_ st
  /\ 0 <= counter_ st < num_clients_ st
  /\ sent (modelInfer (fun _ => ()) (fun _ => mkResponse "" "" []) server
                      "echo" request st).2
     = sent st ++ [(counter_ st,
                    mkHttpRequest Post ("/v2/models/" +:+ "echo" +:+ "/infer")
                                  (Some ()) (headers_ st))].
Proof.
  intros request st server.
  assert (Hne : req_inputs request <> []) by discriminate.
  assert (Hn : 0 < num_clients_ st) by reflexivity.
  assert (Hc : 0 <= counter_ st < num_clients_ st) by (cbn; lia).
  split; [exact Hne|]. split; [exact Hn|]. split; [exact Hc|].
  exact (proj1 (inference_is_posted_once (fun _ => ())
                  (fun _ => mkResponse "" "" []) server
                  "echo" request st Hne Hn Hc)).
Defined.

(** The same instance, evaluated: the status is 500 and the body empty,
    so [modelInfer] throws and the future of [modelInferAsync] holds a
    response read from the reply. *)
Lemma empty_error_body_is_a_response :
  let request := mkRequest "id" [mkInput "in" [1] DataType.Uint32 []] [] 0 in
  let st := mkState (Json := unit) [("k", "v")]%string 1 2 [] in
  let server := fun _ : @HttpRequest unit => (Ok, mkHttpResponse 500 "" ()) in
  (modelInfer (fun _ => ()) (fun _ => mkResponse "" "" []) server
              "echo" request st).1
  = Throws (bad_status "")
  /\ (modelInferAsync (fun _ => ()) (fun _ => mkResponse "" "" []) server
                      "echo" request st).1
     = Value (PromisedResponse (mkResponse "" "" [])).
Proof. split; reflexivity. Qed.

End HttpInferFacts.
